(** * Homeopath_AI: the repertory parser, the merger and the query engine

    A shallow embedding of
      - [web scrapper/final_scrap.py] (and its single-page twin [scrap6.py]):
        [parse_lines] and [merge_data];
      - [web scrapper/data_process.py]: [normalize_symptom_name],
        [process_data_structure], [find_common_remedies] and
        [get_remedy_details].

    Python values are modelled as follows.
      - [str]: Rocq's [string]; a character is a code point in 0..255
        (Latin-1), and the character classes below are Python's, restricted
        to that range.
      - [dict] with string keys: stdpp's [gmap string _]; Python's dict
        equality ignores insertion order, as does [gmap] equality.
      - [set]: stdpp's [gset]; the iteration order of a Python set is
        unspecified, as is the order of [elements].
      - [defaultdict]: a [gmap] whose subscript operation is written out (it
        inserts the default value under a missing key).
      - [sorted] on strings: a stable sort by code point; modelled by stdpp's
        [merge_sort] over [String.le]. *)

From Stdlib Require Import Strings.String Strings.Ascii NArith.
From stdpp Require Import base option list strings gmap fin_maps sorting.

Local Open Scope string_scope.

(** ** Python string primitives *)

Module Py.

Definition code (a : ascii) : N := N_of_ascii a.

Definition between (lo hi : N) (a : ascii) : bool :=
  ((lo <=? code a) && (code a <=? hi))%N.

(** [[A-Z]] and [[a-z]] of the regular expressions. *)
Definition is_AZ (a : ascii) : bool := between 65 90 a.
Definition is_az (a : ascii) : bool := between 97 122 a.
Definition is_letter (a : ascii) : bool := is_AZ a || is_az a.

(** [\d] on [str] patterns: decimal digits (only 0-9 below 256). *)
Definition is_digit (a : ascii) : bool := between 48 57 a.

(** [str.isspace] and [\s] on [str] patterns: tab, LF, VT, FF, CR,
    the separators 0x1c-0x1f, space, NEL (0x85) and NBSP (0xa0). *)
Definition is_space (a : ascii) : bool :=
  between 9 13 a || between 28 32 a
  || (code a =? 133)%N || (code a =? 160)%N.

(** [\w] on [str] patterns: alphanumeric code points and the underscore. *)
Definition is_word (a : ascii) : bool :=
  is_digit a || is_letter a || (code a =? 95)%N
  || (code a =? 170)%N || (code a =? 178)%N || (code a =? 179)%N
  || (code a =? 181)%N || (code a =? 185)%N || (code a =? 186)%N
  || between 188 190 a || between 192 214 a || between 216 246 a
  || between 248 255 a.

(** [str.lower] on one code point. *)
Definition lower_char (a : ascii) : ascii :=
  if is_AZ a || (between 192 222 a && negb (code a =? 215)%N)
  then ascii_of_N (code a + 32) else a.

(** [str.upper] on one code point.  The three code points whose upper case
    lies outside 0..255 (0xb5, 0xdf, 0xff) are left alone; [capitalize] is
    only ever applied to tokens made of ASCII letters and hyphens. *)
Definition upper_char (a : ascii) : ascii :=
  if is_az a || (between 224 254 a && negb (code a =? 247)%N)
  then ascii_of_N (code a - 32) else a.

Section Chars.

Abbreviation chars := (list ascii).

Fixpoint take_while (p : ascii → bool) (l : chars) : chars :=
  match l with
  | a :: l' => if p a then a :: take_while p l' else []
  | [] => []
  end.

Fixpoint drop_while (p : ascii → bool) (l : chars) : chars :=
  match l with
  | a :: l' => if p a then drop_while p l' else l
  | [] => []
  end.

(** [s.lstrip(cs)], [s.rstrip(cs)], [s.strip(cs)] for a class [p]. *)
Definition lstrip_by (p : ascii → bool) (l : chars) : chars :=
  drop_while p l.
Definition rstrip_by (p : ascii → bool) (l : chars) : chars :=
  reverse (drop_while p (reverse l)).
Definition strip_by (p : ascii → bool) (l : chars) : chars :=
  rstrip_by p (lstrip_by p l).

Definition lower_chars (l : chars) : chars := lower_char <$> l.

(** [s.capitalize()]: first character upper-cased, the rest lower-cased. *)
Definition capitalize_chars (l : chars) : chars :=
  match l with
  | a :: l' => upper_char a :: lower_chars l'
  | [] => []
  end.

(** [sub in s] for strings. *)
Fixpoint starts_with (pre l : chars) : bool :=
  match pre, l with
  | [], _ => true
  | a :: pre', b :: l' => bool_decide (a = b) && starts_with pre' l'
  | _ :: _, [] => false
  end.

Fixpoint contains (sub l : chars) : bool :=
  starts_with sub l ||
  match l with
  | _ :: l' => contains sub l'
  | [] => false
  end.

End Chars.

Definition chars_of (s : string) : list ascii := list_ascii_of_string s.
Definition str_of (l : list ascii) : string := string_of_list_ascii l.

Definition on_chars (f : list ascii → list ascii) (s : string) : string :=
  str_of (f (chars_of s)).

Definition lower : string → string := on_chars lower_chars.
Definition strip : string → string := on_chars (strip_by is_space).
Definition capitalize : string → string := on_chars capitalize_chars.

(** Truthiness of a [str] and of an optional [str] ([None] is falsy). *)
Definition truthy (s : string) : bool := negb (bool_decide (s = "")).
Definition truthy_opt (o : option string) : bool :=
  match o with Some s => truthy s | None => false end.

(** [sorted(set(l))] and [sorted(set(l1) | set(l2))]. *)
Definition sorted (X : gset string) : list string :=
  merge_sort String.le (elements X).
Definition set_of (l : list string) : gset string := list_to_set l.

(** [s.split(sep)] on a one-character separator class: the pieces between
    the separators ([cur] is the current piece, reversed). *)
Fixpoint split_on (p : ascii → bool) (cur l : list ascii) : list (list ascii) :=
  match l with
  | [] => [reverse cur]
  | a :: l' =>
      if p a then reverse cur :: split_on p [] l'
      else split_on p (a :: cur) l'
  end.

(** A [dict] whose iteration order matters: its items in insertion order.
    [od_get] is [d.get(k)]; [od_set] is [d[k] = v], which keeps the place of
    a key already present and appends a new key. *)
Fixpoint od_get {V} (k : string) (d : list (string * V)) : option V :=
  match d with
  | [] => None
  | (k', v) :: d' => if bool_decide (k' = k) then Some v else od_get k d'
  end.

Fixpoint od_set {V} (k : string) (v : V) (d : list (string * V))
  : list (string * V) :=
  match d with
  | [] => [(k, v)]
  | (k', v') :: d' =>
      if bool_decide (k' = k) then (k, v) :: d' else (k', v') :: od_set k v d'
  end.

(** The subscript of a [defaultdict]: a missing key is inserted with the
    default value, which is returned. *)
Definition defaultdict_getitem {V} (dflt : V) (k : string) (d : gmap string V)
  : V * gmap string V :=
  match d !! k with
  | Some v => (v, d)
  | None => (dflt, <[k := dflt]> d)
  end.

End Py.

(** ** The scraper: [final_scrap.py] (class [KentRepertoryScraper]) *)

Module Scraper.

Import Py.

(** body part -> symptom -> sub-symptom -> remedies *)
Abbreviation leaves := (gmap string (list string)).
Abbreviation symptoms := (gmap string (gmap string (list string))).
Abbreviation repertory := (gmap string (gmap string (gmap string (list string)))).

Definition nl : ascii := ascii_of_N 10.

(** [re.match(r'^p\.\s*\d+$', s)].  Without [re.MULTILINE], [$] matches at
    the end of the string and just before a newline that ends the string. *)
Definition at_end (l : list ascii) : bool :=
  match l with
  | [] => true
  | [a] => bool_decide (a = nl)
  | _ => false
  end.

Definition is_page_number (s : string) : bool :=
  match chars_of s with
  | "p"%char :: "."%char :: l =>
      let l1 := drop_while is_space l in
      match take_while is_digit l1 with
      | [] => false
      | _ :: _ => at_end (drop_while is_digit l1)
      end
  | _ => false
  end.

(** The symptom pattern of [parse_lines], applied with [re.match]: group 1 is
    [[A-Z][A-Z\s\-]+], group 2 is any run of characters other than a newline,
    up to [$].  The two groups are returned when the line matches.  Group 1 is
    the longest run: giving back characters never lets the rest match, since
    the dot stops at a newline. *)
Definition is_header_char (a : ascii) : bool :=
  is_AZ a || is_space a || bool_decide (a = "-"%char).

Definition not_nl (a : ascii) : bool := negb (bool_decide (a = nl)).

Definition match_symptom (line : string) : option (string * string) :=
  match chars_of line with
  | a :: l =>
      if is_AZ a then
        match take_while is_header_char l with
        | [] => None
        | r :: run =>
            let rest := drop_while is_header_char l in
            if at_end (drop_while not_nl rest)
            then Some (str_of (a :: r :: run), str_of (take_while not_nl rest))
            else None
        end
      else None
  | [] => None
  end.

(** [':' in s] and [s.split(':', 1)]. *)
Definition is_colon (a : ascii) : bool := bool_decide (a = ":"%char).
Definition not_colon (a : ascii) : bool := negb (is_colon a).

Definition has_colon (s : string) : bool := existsb is_colon (chars_of s).

Definition split_colon_once (s : string) : string * string :=
  let l := chars_of s in
  (str_of (take_while not_colon l), str_of (tail (drop_while not_colon l))).

(** [sub_part.strip(' ,.')] *)
Definition is_sub_trim (a : ascii) : bool :=
  bool_decide (a = " "%char) || bool_decide (a = ","%char)
  || bool_decide (a = "."%char).

(** [re.findall(r'\b[A-Za-z][A-Za-z-]{0,20}\.', meds_part)].  [prev_word]
    tells whether the previous character is a word character (for [\b]);
    [skip] counts the characters of the current match still to be passed.
    At a letter on a word boundary the longest run of [[A-Za-z-]] is taken;
    the match succeeds when that run has at most 20 characters and a period
    follows it. *)
Definition is_med_char (a : ascii) : bool :=
  is_letter a || bool_decide (a = "-"%char).

Definition starts_with_dot (l : list ascii) : bool :=
  match l with
  | a :: _ => bool_decide (a = "."%char)
  | [] => false
  end.

Fixpoint findall_meds (skip : nat) (prev_word : bool) (l : list ascii)
  : list string :=
  match l with
  | [] => []
  | a :: l' =>
      match skip with
      | S k => findall_meds k (is_word a) l'
      | O =>
          let run := take_while is_med_char l' in
          if negb prev_word && is_letter a
             && (List.length run <=? 20)%nat
             && starts_with_dot (drop_while is_med_char l')
          then str_of (a :: run ++ ["."%char])%list
               :: findall_meds (S (List.length run)) (is_word a) l'
          else findall_meds 0 (is_word a) l'
      end
  end.

Definition is_dot (a : ascii) : bool := bool_decide (a = "."%char).

(** [m.rstrip('.').strip().capitalize()] *)
Definition clean_med (m : string) : string :=
  capitalize (strip (on_chars (rstrip_by is_dot) m)).

(** The [setdefault] chain followed by [extend]. *)
Definition store (bp sym sub : string) (meds : list string) (data : repertory)
  : repertory :=
  let d_bp : symptoms := default ∅ (data !! bp) in
  let d_sym : leaves := default ∅ (d_bp !! sym) in
  let leaf : list string := default [] (d_sym !! sub) in
  <[bp := <[sym := <[sub := (leaf ++ meds)%list]> d_sym]> d_bp]> data.

Record pstate := PState {
  data : repertory;
  current_body_part : option string;
  current_symptom : option string
}.

(** The part of the loop body after the body-part test: one line. *)
Definition parse_line (line : string) (st : pstate) : pstate :=
  let cont (sym : option string) (remainder : string) : pstate :=
    let '(sub_symptom, meds_part) :=
      if has_colon remainder then
        let '(sub_part, meds_part) := split_colon_once remainder in
        let sub := on_chars (strip_by is_sub_trim) sub_part in
        (if truthy sub then sub else "general", meds_part)
      else ("general", strip remainder) in
    let meds_raw := findall_meds 0 false (chars_of meds_part) in
    let medicines := clean_med <$> meds_raw in
    match current_body_part st, sym, medicines with
    | Some bp, Some sy, _ :: _ =>
        if truthy bp && truthy sy
        then PState (store bp sy sub_symptom medicines (data st))
                    (current_body_part st) sym
        else PState (data st) (current_body_part st) sym
    | _, _, _ => PState (data st) (current_body_part st) sym
    end in
  match match_symptom line with
  | Some (g1, g2) => cont (Some (strip g1)) (strip g2)
  | None =>
      if truthy_opt (current_symptom st)
      then cont (current_symptom st) line
      else st
  end.

(** The [while i < len(lines)] loop: a body-part line followed by a page
    number consumes two lines, any other line one. *)
Fixpoint parse_loop (body_parts : gset string) (lines : list string)
  (st : pstate) : pstate :=
  match lines with
  | [] => st
  | line :: rest =>
      let is_bp :=
        bool_decide (line ∈ body_parts) &&
        match rest with
        | next :: _ => is_page_number (lower next)
        | [] => false
        end in
      if is_bp then
        match rest with
        | _ :: rest' =>
            parse_loop body_parts rest' (PState (data st) (Some line) None)
        | [] => st
        end
      else parse_loop body_parts rest (parse_line line st)
  end.

(** The final pass: every leaf becomes [sorted(set(leaf))]. *)
Definition clean_leaf (leaf : list string) : list string :=
  sorted (set_of leaf).

Definition clean_duplicates (d : repertory) : repertory :=
  (λ syms : symptoms, (λ subs : leaves, clean_leaf <$> subs) <$> syms) <$> d.

Definition parse_lines (lines : list string) (body_parts : gset string)
  : repertory :=
  clean_duplicates (data (parse_loop body_parts lines (PState ∅ None None))).

(** [merge_data]: [self.all_data] is threaded explicitly.  Its three nested
    loops have one shape: for every item [(k, v)] of the new dict, the entry
    of the accumulator under [k] is created with a default when missing and
    then updated from [v]. *)
Definition merge_items {V W} (dflt : W) (step : W → V → W)
  (new : gmap string V) (acc : gmap string W) : gmap string W :=
  map_fold (λ k v acc, <[k := step (default dflt (acc !! k)) v]> acc) acc new.

(** [sorted(existing | new_meds)] *)
Definition merge_leaf (existing medicines : list string) : list string :=
  sorted (set_of existing ∪ set_of medicines).

Definition merge_sub_symptoms (acc new_subs : leaves) : leaves :=
  merge_items [] merge_leaf new_subs acc.

Definition merge_symptoms (acc new_syms : symptoms) : symptoms :=
  merge_items ∅ merge_sub_symptoms new_syms acc.

Definition merge_data (all_data new_data : repertory) : repertory :=
  merge_items ∅ merge_symptoms new_data all_data.

(** The leaf of a repertory at a (body part, symptom, sub-symptom). *)
Definition leaf_at (d : repertory) (bp sy sub : string)
  : option (list string) :=
  match d !! bp with
  | Some syms =>
      match syms !! sy with
      | Some subs => subs !! sub
      | None => None
      end
  | None => None
  end.

(** How often a remedy occurs in a leaf. *)
Definition occurrences (r : string) (leaf : list string) : nat :=
  List.length (filter (λ x, x = r) leaf).

(** A leaf is well formed when it is non-empty, duplicate-free and sorted. *)
Definition leaf_ok (leaf : list string) : Prop :=
  leaf ≠ [] ∧ NoDup leaf ∧ Sorted String.le leaf.

Definition all_leaves (P : list string → Prop) (d : repertory) : Prop :=
  ∀ bp sy sub leaf, leaf_at d bp sy sub = Some leaf → P leaf.

(** [scrape_all_pages], given what the fetches return for the pages in
    order: a page that has lines is parsed and merged into [self.all_data];
    a page without lines (a failed fetch returns none) is passed over. *)
Definition scrape_all_pages (fetched : list (list string * gset string))
  (all_data : repertory) : repertory :=
  foldl (λ all_data page,
           match page.1 with
           | [] => all_data
           | _ :: _ => merge_data all_data (parse_lines page.1 page.2)
           end) all_data fetched.

(** A property of the keys under which a repertory has a leaf. *)
Definition all_keys (P : string → string → string → Prop) (d : repertory)
  : Prop :=
  ∀ bp sy sub leaf, leaf_at d bp sy sub = Some leaf → P bp sy sub.

(** A remedy occurs in the leaf at a key. *)
Definition has_remedy (d : repertory) (bp sy sub r : string) : Prop :=
  ∃ leaf, leaf_at d bp sy sub = Some leaf ∧ r ∈ leaf.

(** A capitalized remedy abbreviation: an upper-case letter followed by at
    most 20 lower-case letters or hyphens. *)
Definition is_lower_med_char (a : ascii) : bool :=
  is_az a || bool_decide (a = "-"%char).

Definition remedy_shape (r : string) : bool :=
  match chars_of r with
  | a :: l =>
      is_AZ a && forallb is_lower_med_char l && (List.length l <=? 20)%nat
  | [] => false
  end.

(** A symptom header: an upper-case letter followed by upper-case letters,
    whitespace and hyphens. *)
Definition symptom_shape (sy : string) : bool :=
  match chars_of sy with
  | a :: l => is_AZ a && forallb is_header_char l
  | [] => false
  end.

(** What the parser keeps true of its state: the body-part keys are known
    body parts and lines of the page, the current symptom and the symptom
    keys are stripped headers, the sub-symptom keys are non-empty, free of
    colons and trimmed. *)
Definition symptom_ok (sy : string) : Prop :=
  symptom_shape sy = true ∧ strip sy = sy.

Definition sub_symptom_ok (sub : string) : Prop :=
  sub ≠ "" ∧ has_colon sub = false ∧
  on_chars (strip_by is_sub_trim) sub = sub.

Definition key_ok (bp sy sub : string) : Prop :=
  symptom_ok sy ∧ sub_symptom_ok sub.

Definition state_ok (body_parts : gset string) (page : list string)
  (st : pstate) : Prop :=
  all_keys key_ok (data st) ∧
  dom (data st) ⊆ body_parts ∩ list_to_set page ∧
  (∀ bp, current_body_part st = Some bp → bp ∈ body_parts ∧ bp ∈ page) ∧
  (∀ sy, current_symptom st = Some sy → symptom_ok sy).

(** The leaf-by-leaf concatenation of two repertories: what the stores of
    two successive runs of the parsing loop add up to. *)
Definition append_items {V} (g : V → V → V) (m1 m2 : gmap string V)
  : gmap string V :=
  union_with (λ a b, Some (g a b)) m1 m2.

Definition append_data (d1 d2 : repertory) : repertory :=
  append_items (append_items (append_items (λ l1 l2, (l1 ++ l2)%list))) d1 d2.

(** The update of the entry under a key, created from a default when
    missing: the shape of each level of [store]. *)
Definition upsert {V} (dflt : V) (k : string) (u : V → V) (m : gmap string V)
  : gmap string V :=
  <[k := u (default dflt (m !! k))]> m.

End Scraper.

(** ** The processor: [data_process.py] (class [HomeopathicDataProcessor]) *)

Module Processor.

Import Py.

(** [self]: the processed data (body part -> symptom -> remedies) and the
    two [defaultdict(set)] indices. *)
Record processor := Processor {
  processed_data : gmap string (gmap string (list string));
  remedy_index : gmap string (gset (string * string));
  symptom_index : gmap string (gset string)
}.

(** [__init__] *)
Definition init : processor := Processor ∅ ∅ ∅.

(** The class [[-:,.\s]] of the trimming pattern. *)
Definition is_punct (a : ascii) : bool :=
  bool_decide (a = "-"%char) || bool_decide (a = ":"%char)
  || bool_decide (a = ","%char) || bool_decide (a = "."%char)
  || is_space a.

(** [re.sub(r'\s+', ' ', s)]: every maximal run of whitespace becomes one
    space; [in_run] tells whether the previous character was whitespace. *)
Fixpoint collapse_spaces (in_run : bool) (l : list ascii) : list ascii :=
  match l with
  | [] => []
  | a :: l' =>
      if is_space a
      then if in_run then collapse_spaces true l'
           else " "%char :: collapse_spaces true l'
      else a :: collapse_spaces false l'
  end.

(** The trimming substitution of [normalize_symptom_name]: the run of the
    class anchored at the start and the run anchored at the end are deleted. *)
Definition trim_punct (l : list ascii) : list ascii :=
  rstrip_by is_punct (lstrip_by is_punct l).

(** The first three statements of [normalize_symptom_name]. *)
Definition clean_chars (l : list ascii) : list ascii :=
  trim_punct (collapse_spaces false (strip_by is_space (lower_chars l))).

(** The [normalizations] dict, in its insertion order. *)
Definition normalizations : list (string * string) :=
  [("aching", "aching"); ("burning", "burning"); ("pain", "pain");
   ("throbbing", "throbbing"); ("shooting", "shooting");
   ("stinging", "stinging"); ("cramping", "cramping");
   ("inflammation", "inflammation"); ("swelling", "swelling");
   ("numbness", "numbness"); ("weakness", "weakness");
   ("anxiety", "anxiety"); ("depression", "depression");
   ("irritability", "irritability"); ("restlessness", "restlessness");
   ("fever", "fever"); ("chills", "chills"); ("nausea", "nausea");
   ("vomiting", "vomiting"); ("diarrhea", "diarrhea");
   ("constipation", "constipation"); ("cough", "cough");
   ("congestion", "congestion"); ("discharge", "discharge");
   ("eruption", "eruption"); ("itching", "itching"); ("dryness", "dryness");
   ("moisture", "moisture")].

(** The [for key, value in normalizations.items()] loop with its early
    [return]. *)
Fixpoint first_root (table : list (string * string)) (symptom : list ascii)
  : option string :=
  match table with
  | [] => None
  | (key, value) :: table' =>
      if contains (chars_of key) symptom then Some value
      else first_root table' symptom
  end.

Definition normalize_symptom_name (symptom : string) : string :=
  let cleaned := clean_chars (chars_of symptom) in
  match first_root normalizations cleaned with
  | Some value => value
  | None => str_of cleaned
  end.

(** The raw input, as [json.load] gives it: a dict is given by its items in
    iteration order.  The value of a symptom is a string or a list whose
    items are strings or not. *)
Inductive item := IStr (s : string) | INotStr.
Inductive remedies_value := RStr (s : string) | RList (l : list item).

Abbreviation raw_symptoms := (list (string * remedies_value)).
Abbreviation raw_data := (list (string * list (string * remedies_value))).

(** [not remedies] *)
Definition falsy (rv : remedies_value) : bool :=
  match rv with
  | RStr s => negb (truthy s)
  | RList [] => true
  | RList (_ :: _) => false
  end.

(** The list of the stripped, non-blank string items. *)
Definition clean_remedy (i : item) : list string :=
  match i with
  | IStr s => if truthy (strip s) then [strip s] else []
  | INotStr => []
  end.

Definition clean_remedies (rv : remedies_value) : list string :=
  let remedies := match rv with RStr s => [IStr s] | RList l => l end in
  (remedies ≫= clean_remedy)%list.

(** [self.remedy_index[remedy].add(v)] and [self.symptom_index[s].add(v)] *)
Definition index_add `{Countable V} (k : string) (v : V)
  (idx : gmap string (gset V)) : gmap string (gset V) :=
  <[k := default ∅ (idx !! k) ∪ {[v]}]> idx.

(** The state of the loops of [process_data_structure]: the local
    [processed] and [self]. *)
Definition process_symptom (body_part : string)
  (st : gmap string (gmap string (list string)) * processor)
  (entry : string * remedies_value)
  : gmap string (gmap string (list string)) * processor :=
  let '(processed, self) := st in
  let '(symptom, remedies) := entry in
  if falsy remedies then st else
  let normalized_symptom := normalize_symptom_name symptom in
  match clean_remedies remedies with
  | [] => st
  | (_ :: _) as clean =>
      (<[body_part := <[normalized_symptom := clean]>
                        (default ∅ (processed !! body_part))]> processed,
       Processor (processed_data self)
         (foldl (λ idx remedy,
                   index_add remedy (body_part, normalized_symptom) idx)
                (remedy_index self) clean)
         (index_add normalized_symptom body_part (symptom_index self)))
  end.

Definition process_body_part
  (st : gmap string (gmap string (list string)) * processor)
  (entry : string * raw_symptoms)
  : gmap string (gmap string (list string)) * processor :=
  let '(body_part, symptoms_dict) := entry in
  match symptoms_dict with
  | [] => st
  | _ :: _ =>
      foldl (process_symptom body_part) (<[body_part := ∅]> st.1, st.2)
            symptoms_dict
  end.

Definition process_data_structure (raw : raw_data) (self : processor)
  : gmap string (gmap string (list string)) * processor :=
  foldl process_body_part (∅, self) raw.

(** The two state-changing steps of [process_all] once the file is loaded:
    nothing happens on empty data, otherwise
    [self.processed_data = self.process_data_structure(raw_data)]. *)
Definition process_all (raw : raw_data) (self : processor) : processor :=
  match raw with
  | [] => self
  | _ :: _ =>
      let '(processed, self') := process_data_structure raw self in
      Processor processed (remedy_index self') (symptom_index self')
  end.

(** *** [find_common_remedies] *)

(** The two local [defaultdict]s [remedy_scores] and [remedy_matches]. *)
Record tally := Tally {
  remedy_scores : list (string * nat);
  remedy_matches : list (string * list string)
}.

(** [f"{body_part}:{symptom}"] *)
Definition location (body_part symptom : string) : string :=
  body_part ++ ":" ++ symptom.

(** [remedy_scores[remedy] += 1; remedy_matches[remedy].append(loc)] *)
Definition credit (loc : string) (t : tally) (remedy : string) : tally :=
  Tally
    (od_set remedy (default 0 (od_get remedy (remedy_scores t)) + 1)
            (remedy_scores t))
    (od_set remedy (default [] (od_get remedy (remedy_matches t)) ++ [loc])%list
            (remedy_matches t)).

(** The first pair of loops. *)
Definition score_symptom (self : processor) (body_part : string)
  (t : tally) (symptom : string) : tally :=
  match processed_data self !! body_part ≫= (.!! symptom) with
  | Some remedies => foldl (credit (location body_part symptom)) t remedies
  | None => t
  end.

Definition score_body_part (self : processor) (symptoms : list string)
  (t : tally) (body_part : string) : tally :=
  match processed_data self !! body_part with
  | Some _ => foldl (score_symptom self body_part) t symptoms
  | None => t
  end.

(** The second pair of loops: a remedy is credited only for a location not
    yet recorded for it. *)
Definition credit_new (loc : string) (t : tally) (remedy : string) : tally :=
  match od_get remedy (remedy_matches t) with
  | Some locs => if bool_decide (loc ∈ locs) then t else credit loc t remedy
  | None => credit loc t remedy
  end.

Definition cross_body_part (self : processor) (body_parts : list string)
  (symptom : string) (t : tally) (body_part : string) : tally :=
  if bool_decide (body_part ∈ body_parts) then
    match default ∅ (processed_data self !! body_part) !! symptom with
    | Some remedies => foldl (credit_new (location body_part symptom)) t remedies
    | None => t
    end
  else t.

Definition cross_symptom (self : processor) (body_parts : list string)
  (t : tally) (symptom : string) : tally :=
  foldl (cross_body_part self body_parts symptom) t
        (elements (default ∅ (symptom_index self !! symptom))).

(** [sorted(items, key=lambda x: x[1], reverse=True)]: a stable sort by
    descending score. *)
Fixpoint insert_by_score (x : string * nat) (l : list (string * nat))
  : list (string * nat) :=
  match l with
  | [] => [x]
  | y :: l' =>
      if (x.2 <? y.2)%nat then y :: insert_by_score x l' else x :: y :: l'
  end.

Definition sort_by_score (l : list (string * nat)) : list (string * nat) :=
  foldr insert_by_score [] l.

(** One entry of the result.  [list(set(...))] has no specified order: the
    two last fields are sets. *)
Record entry := Entry {
  score : nat;
  matches : list string;
  body_parts : gset string;
  symptoms : gset string
}.

(** [match.split(':')[i]]; every recorded location contains a colon, so the
    index 1 is always in range. *)
Definition split_colon (i : nat) (m : string) : string :=
  str_of (default [] (split_on (λ a, bool_decide (a = ":"%char)) []
                               (chars_of m) !! i)).

Definition make_entry (t : tally) (remedy : string) (sc : nat) : entry :=
  let ms := default [] (od_get remedy (remedy_matches t)) in
  Entry sc ms (list_to_set (split_colon 0 <$> ms))
        (list_to_set (split_colon 1 <$> ms)).

(** [find_common_remedies] only reads [self] (membership tests, plain
    subscripts of [processed_data], and [symptom_index.get]): it is a
    function of [self].  The result is the dict in its insertion order. *)
Definition find_common_remedies (self : processor)
  (body_parts symptoms : list string) : list (string * entry) :=
  match body_parts, symptoms with
  | [], [] => []
  | _, _ =>
      let t1 := foldl (score_body_part self symptoms) (Tally [] []) body_parts in
      let t2 := foldl (cross_symptom self body_parts) t1 symptoms in
      foldl (λ result '(remedy, sc), od_set remedy (make_entry t2 remedy sc) result)
            [] (sort_by_score (remedy_scores t2))
  end.

(** *** [get_remedy_details] *)

Record details := Details {
  name : string;
  d_body_parts : gset string;
  d_symptoms : gset string;
  total_indications : nat
}.

Definition get_remedy_details (remedy : string) (self : processor)
  : details * processor :=
  let locs : gset (string * string) :=
    match remedy_index self !! remedy with
    | Some s => s
    | None => ∅
    end in
  let '(s, idx) := defaultdict_getitem ∅ remedy (remedy_index self) in
  (Details remedy (set_map fst locs) (set_map snd locs) (size s),
   Processor (processed_data self) idx (symptom_index self)).

(** *** Quantities used to state the properties of the query engine *)

(** The (location, remedy) pairs credited by the first pair of loops, in the
    order of the loops. *)
Definition credits_symptom (self : processor) (body_part symptom : string)
  : list (string * string) :=
  match processed_data self !! body_part ≫= (.!! symptom) with
  | Some remedies => (λ r, (location body_part symptom, r)) <$> remedies
  | None => []
  end.

Definition credits_body_part (self : processor) (symptoms : list string)
  (body_part : string) : list (string * string) :=
  match processed_data self !! body_part with
  | Some _ => symptoms ≫= credits_symptom self body_part
  | None => []
  end.

Definition credits (self : processor) (body_parts symptoms : list string)
  : list (string * string) :=
  body_parts ≫= credits_body_part self symptoms.

(** How many credits go to a remedy. *)
Definition credit_count (r : string) (cs : list (string * string)) : nat :=
  List.length (filter (λ c, c.2 = r) cs).

(** The queried (body part, symptom) pairs whose leaf contains a remedy. *)
Definition leaf_has (self : processor) (r : string) (p : string * string)
  : bool :=
  let leaf : option (list string) :=
    processed_data self !! p.1 ≫= (.!! p.2) in
  match leaf with
  | Some remedies => bool_decide (r ∈ remedies)
  | None => false
  end.

Definition matching_pairs (self : processor) (body_parts symptoms : list string)
  (r : string) : gset (string * string) :=
  list_to_set (filter (λ p, leaf_has self r p = true)
                      (body_parts ≫= λ bp, (λ sy, (bp, sy)) <$> symptoms)).

(** The score of a remedy in a result, when it has an entry. *)
Definition score_of (r : string) (result : list (string * entry))
  : option nat :=
  score <$> od_get r result.

(** The tally after a list of credits. *)
Definition apply_credits (t : tally) (cs : list (string * string)) : tally :=
  foldl (λ t c, credit c.1 t c.2) t cs.

(** A location is recorded for a remedy. *)
Definition recorded (t : tally) (loc r : string) : Prop :=
  ∃ locs, od_get r (remedy_matches t) = Some locs ∧ loc ∈ locs.

(** The two local dicts agree: same keys, each once, and every score is the
    number of recorded locations. *)
Definition tally_ok (t : tally) : Prop :=
  NoDup (remedy_scores t).*1 ∧
  ∀ r, od_get r (remedy_scores t)
       = List.length <$> od_get r (remedy_matches t).

(** A text whose whitespace is normal: every whitespace character is a
    single space that does not follow another whitespace character
    ([after_space] tells whether the previous character was one). *)
Fixpoint well_spaced (after_space : bool) (l : list ascii) : bool :=
  match l with
  | [] => true
  | a :: l' =>
      if is_space a
      then negb after_space && bool_decide (a = " "%char) && well_spaced true l'
      else well_spaced false l'
  end.

(** *** [extract_symptom_categories] *)

(** [any(word in symptom.lower() for word in words)] *)
Definition any_word_in (words : list string) (symptom : string) : bool :=
  existsb (λ word, contains (chars_of word) (chars_of (lower symptom))) words.

Definition extract_symptom_categories (symptom : string) : list string :=
  let categories : list string := [] in
  let categories :=
    if any_word_in ["pain"; "aching"; "sore"; "hurt"] symptom
    then (categories ++ ["pain"])%list else categories in
  let categories :=
    if any_word_in ["burning"; "burn"; "hot"] symptom
    then (categories ++ ["burning"])%list else categories in
  let categories :=
    if any_word_in ["inflammation"; "swelling"; "inflamed"] symptom
    then (categories ++ ["inflammation"])%list else categories in
  let categories :=
    if any_word_in ["numbness"; "tingling"; "weakness"] symptom
    then (categories ++ ["neurological"])%list else categories in
  let categories :=
    if any_word_in ["anxiety"; "fear"; "worry"; "depression"; "sad"] symptom
    then (categories ++ ["mental"])%list else categories in
  let categories :=
    if any_word_in ["nausea"; "vomiting"; "diarrhea"; "constipation"] symptom
    then (categories ++ ["digestive"])%list else categories in
  let categories :=
    if any_word_in ["cough"; "congestion"; "breathing"] symptom
    then (categories ++ ["respiratory"])%list else categories in
  let categories :=
    if any_word_in ["itching"; "rash"; "eruption"; "dry"] symptom
    then (categories ++ ["skin"])%list else categories in
  match categories with
  | [] => ["general"]
  | _ :: _ => categories
  end.

(** The tags other than the default one, in the order they are tested. *)
Definition category_tags : list string :=
  ["pain"; "burning"; "inflammation"; "neurological"; "mental"; "digestive";
   "respiratory"; "skin"].

(** A property of the (body part, symptom, remedies) entries of processed
    data. *)
Definition all_processed (P : string → string → list string → Prop)
  (processed : gmap string (gmap string (list string))) : Prop :=
  ∀ bp syms sy leaf,
    processed !! bp = Some syms → syms !! sy = Some leaf → P bp sy leaf.

(** An entry of processed data that comes from an entry of the raw data:
    the symptom is the normalized raw symptom and the remedies are the
    cleaned raw remedies, of which there is at least one. *)
Definition from_raw (raw : raw_data) (bp sy : string) (leaf : list string)
  : Prop :=
  ∃ symptoms_dict symptom rv,
    (bp, symptoms_dict) ∈ raw ∧ (symptom, rv) ∈ symptoms_dict ∧
    sy = normalize_symptom_name symptom ∧ leaf = clean_remedies rv ∧
    leaf ≠ [].


End Processor.

(** * Properties *)

(** ** [sorted] and sets of strings *)

Section Sorted.

Import Py.

Lemma sorted_perm (X : gset string) : sorted X ≡ₚ elements X.
Proof. apply merge_sort_Permutation. Qed.

Lemma elem_of_sorted (X : gset string) (x : string) : x ∈ sorted X ↔ x ∈ X.
Proof. by rewrite sorted_perm, elem_of_elements. Qed.

Lemma set_of_sorted (X : gset string) : set_of (sorted X) = X.
Proof.
  apply set_eq; intros x. unfold set_of.
  by rewrite elem_of_list_to_set, elem_of_sorted.
Qed.

Lemma sorted_NoDup (X : gset string) : NoDup (sorted X).
Proof. rewrite sorted_perm. apply NoDup_elements. Qed.

Lemma sorted_Sorted (X : gset string) : Sorted String.le (sorted X).
Proof. apply (Sorted_merge_sort String.le). Qed.

Lemma sorted_nil (X : gset string) : sorted X = [] → X = ∅.
Proof.
  intros E. apply set_eq; intros x.
  rewrite <- elem_of_sorted, E. set_solver.
Qed.

Lemma elem_of_set_of (l : list string) (x : string) : x ∈ set_of l ↔ x ∈ l.
Proof. apply elem_of_list_to_set. Qed.

Lemma occurrences_notin (r : string) (l : list string) :
  r ∉ l → Scraper.occurrences r l = 0.
Proof.
  unfold Scraper.occurrences. induction l as [|x l IH]; intros Hr; [done|].
  apply not_elem_of_cons in Hr as [Hne Hr].
  rewrite filter_cons, decide_False by done. auto.
Qed.

Lemma occurrences_NoDup (r : string) (l : list string) :
  NoDup l → r ∈ l → Scraper.occurrences r l = 1.
Proof.
  induction 1 as [|x l Hx Hl IH]; intros Hr; [by apply elem_of_nil in Hr|].
  apply elem_of_cons in Hr as [->|Hr].
  - pose proof (occurrences_notin x l Hx) as H0. revert H0.
    unfold Scraper.occurrences. rewrite filter_cons, decide_True by done.
    simpl. by intros ->.
  - specialize (IH Hr). revert IH.
    unfold Scraper.occurrences. rewrite filter_cons, decide_False; [done|].
    intros ->. done.
Qed.

End Sorted.

(** ** The merging loop *)

Section MergeItems.

Import Py Scraper.

Context {V W : Type} (dflt : W) (step : W → V → W).

Lemma merge_items_lookup (new : gmap string V) (acc : gmap string W) k :
  merge_items dflt step new acc !! k =
  match new !! k with
  | Some v => Some (step (default dflt (acc !! k)) v)
  | None => acc !! k
  end.
Proof.
  unfold merge_items. revert k.
  apply (map_fold_weak_ind (λ r (m : gmap string V), ∀ k,
    r !! k = match m !! k with
             | Some v => Some (step (default dflt (acc !! k)) v)
             | None => acc !! k
             end)).
  - intros k. by rewrite lookup_empty.
  - intros i x m r Hi IH k. destruct (decide (i = k)) as [->|Hne].
    + rewrite !lookup_insert_eq. by rewrite IH, Hi.
    + rewrite !lookup_insert_ne by done. apply IH.
Qed.

End MergeItems.

Section MergeAlgebra.

Import Py Scraper.

Context {V : Type} (dflt : V) (step : V → V → V).

Lemma merge_items_comm (a b : gmap string V) :
  (∀ x y, step (step dflt x) y = step (step dflt y) x) →
  merge_items dflt step b (merge_items dflt step a ∅)
  = merge_items dflt step a (merge_items dflt step b ∅).
Proof.
  intros Hstep. apply map_eq; intros k.
  rewrite !merge_items_lookup, !lookup_empty.
  destruct (a !! k) as [x|], (b !! k) as [y|]; simpl; [|done..].
  f_equal. apply Hstep.
Qed.

Lemma merge_items_idemp (a r : gmap string V) :
  (∀ x y, step (step x y) y = step x y) →
  merge_items dflt step a (merge_items dflt step a r)
  = merge_items dflt step a r.
Proof.
  intros Hstep. apply map_eq; intros k.
  rewrite !merge_items_lookup.
  destruct (a !! k) as [x|]; simpl; [|done].
  f_equal. apply Hstep.
Qed.

End MergeAlgebra.

Section Merge.

Import Py Scraper.

Lemma merge_leaf_comm (x y : list string) :
  merge_leaf (merge_leaf [] x) y = merge_leaf (merge_leaf [] y) x.
Proof.
  unfold merge_leaf. rewrite !set_of_sorted. f_equal.
  apply set_eq; intros z. rewrite !elem_of_union. tauto.
Qed.

Lemma merge_leaf_idemp (x y : list string) :
  merge_leaf (merge_leaf x y) y = merge_leaf x y.
Proof.
  unfold merge_leaf. rewrite !set_of_sorted. f_equal.
  apply set_eq; intros z. rewrite !elem_of_union. tauto.
Qed.

Lemma merge_sub_symptoms_comm (a b : leaves) :
  merge_sub_symptoms (merge_sub_symptoms ∅ a) b
  = merge_sub_symptoms (merge_sub_symptoms ∅ b) a.
Proof. apply merge_items_comm, merge_leaf_comm. Qed.

Lemma merge_symptoms_comm (a b : symptoms) :
  merge_symptoms (merge_symptoms ∅ a) b = merge_symptoms (merge_symptoms ∅ b) a.
Proof. apply merge_items_comm, merge_sub_symptoms_comm. Qed.

Lemma merge_sub_symptoms_idemp (r a : leaves) :
  merge_sub_symptoms (merge_sub_symptoms r a) a = merge_sub_symptoms r a.
Proof. apply merge_items_idemp, merge_leaf_idemp. Qed.

Lemma merge_symptoms_idemp (r a : symptoms) :
  merge_symptoms (merge_symptoms r a) a = merge_symptoms r a.
Proof. apply merge_items_idemp, merge_sub_symptoms_idemp. Qed.

(** The leaf of a merged repertory under a key of the merged-in page. *)
Lemma leaf_at_merge_data (R A : repertory) bp sy sub meds :
  leaf_at A bp sy sub = Some meds →
  leaf_at (merge_data R A) bp sy sub
  = Some (merge_leaf (default [] (leaf_at R bp sy sub)) meds).
Proof.
  unfold leaf_at, merge_data. rewrite merge_items_lookup.
  destruct (A !! bp) as [syms|]; [|done].
  unfold merge_symptoms. rewrite merge_items_lookup.
  destruct (syms !! sy) as [subs|]; [|done].
  unfold merge_sub_symptoms. rewrite merge_items_lookup.
  intros ->. f_equal. f_equal.
  destruct (R !! bp) as [rs|]; simpl; [|by rewrite lookup_empty].
  destruct (rs !! sy) as [rl|]; simpl; [done|by rewrite lookup_empty].
Qed.

(** A leaf of a merged repertory comes from the accumulator or is a merged
    leaf. *)
Lemma leaf_at_merge_data_inv (R A : repertory) bp sy sub leaf :
  leaf_at (merge_data R A) bp sy sub = Some leaf →
  leaf_at R bp sy sub = Some leaf ∨
  ∃ meds, leaf_at A bp sy sub = Some meds ∧
          leaf = merge_leaf (default [] (leaf_at R bp sy sub)) meds.
Proof.
  destruct (leaf_at A bp sy sub) as [meds|] eqn:HA.
  - rewrite (leaf_at_merge_data R A bp sy sub meds HA).
    intros [= <-]. right. eauto.
  - intros H. left. rewrite <- H. revert HA.
    unfold leaf_at, merge_data. rewrite merge_items_lookup.
    destruct (A !! bp) as [syms|]; [|done].
    unfold merge_symptoms. rewrite merge_items_lookup.
    destruct (syms !! sy) as [subs|].
    + unfold merge_sub_symptoms. rewrite merge_items_lookup.
      intros ->.
      destruct (R !! bp) as [rs|]; simpl; [|by rewrite lookup_empty].
      destruct (rs !! sy) as [rl|]; simpl; [done|by rewrite lookup_empty].
    + intros _. by destruct (R !! bp).
Qed.

(** C2: merging two page maps into the empty accumulator gives the same
    repertory in either order; the two results are equal as maps, so every
    (body part, symptom, sub-symptom) leaf holds the same remedies. *)
Theorem merge_data_order_independent (A B : repertory) :
  merge_data (merge_data ∅ A) B = merge_data (merge_data ∅ B) A.
Proof. apply merge_items_comm, merge_symptoms_comm. Qed.

(** C3: merging the same page map twice is the same as merging it once, and
    a remedy of a leaf of the page occurs exactly once in the corresponding
    leaf of the merged repertory. *)
Theorem merge_data_idempotent (R A : repertory) :
  merge_data (merge_data R A) A = merge_data R A ∧
  ∀ bp sy sub meds r,
    leaf_at A bp sy sub = Some meds → r ∈ meds →
    ∃ leaf, leaf_at (merge_data (merge_data R A) A) bp sy sub = Some leaf ∧
            occurrences r leaf = 1.
Proof.
  assert (merge_data (merge_data R A) A = merge_data R A) as E
    by apply merge_items_idemp, merge_symptoms_idemp.
  split; [done|]. intros bp sy sub meds r HA Hr. rewrite E.
  eexists. split; [by apply leaf_at_merge_data|].
  apply occurrences_NoDup; [apply sorted_NoDup|].
  apply elem_of_sorted, elem_of_union_r. by apply elem_of_set_of.
Qed.

End Merge.

(** ** The parser keeps its leaves non-empty *)

Section ParseInvariant.

Import Py Scraper.

Lemma leaf_at_store bp sy sub meds (d : repertory) bp' sy' sub' :
  leaf_at (store bp sy sub meds d) bp' sy' sub' =
  if decide (bp = bp' ∧ sy = sy' ∧ sub = sub')
  then Some (default [] (leaf_at d bp sy sub) ++ meds)%list
  else leaf_at d bp' sy' sub'.
Proof.
  unfold leaf_at, store.
  destruct (decide (bp = bp')) as [<-|Hbp].
  - rewrite lookup_insert_eq.
    destruct (decide (sy = sy')) as [<-|Hsy].
    + rewrite lookup_insert_eq.
      destruct (decide (sub = sub')) as [<-|Hsub].
      * rewrite lookup_insert_eq, decide_True by done.
        destruct (d !! bp) as [syms|]; simpl; [|by rewrite lookup_empty].
        destruct (syms !! sy) as [subs|]; simpl; [done|by rewrite lookup_empty].
      * rewrite lookup_insert_ne, decide_False by tauto.
        destruct (d !! bp) as [syms|]; simpl; [|by rewrite lookup_empty].
        destruct (syms !! sy) as [subs|]; simpl; [done|by rewrite lookup_empty].
    + rewrite lookup_insert_ne, decide_False by tauto.
      destruct (d !! bp) as [syms|]; simpl; [done|by rewrite lookup_empty].
  - rewrite lookup_insert_ne, decide_False by tauto. done.
Qed.

Lemma store_nonempty bp sy sub m meds (d : repertory) :
  all_leaves (λ l, l ≠ []) d →
  all_leaves (λ l, l ≠ []) (store bp sy sub (m :: meds) d).
Proof.
  intros Hd bp' sy' sub' leaf. rewrite leaf_at_store.
  case_decide; [|apply Hd].
  intros [= <-]. by destruct (default [] (leaf_at d bp sy sub)).
Qed.

Lemma parse_line_nonempty line st :
  all_leaves (λ l, l ≠ []) (data st) →
  all_leaves (λ l, l ≠ []) (data (parse_line line st)).
Proof.
  intros Hst. unfold parse_line. cbv zeta.
  repeat case_match; simpl; try done; by apply store_nonempty.
Qed.

Lemma parse_loop_nonempty body_parts n : ∀ lines st,
  (List.length lines ≤ n)%nat →
  all_leaves (λ l, l ≠ []) (data st) →
  all_leaves (λ l, l ≠ []) (data (parse_loop body_parts lines st)).
Proof.
  induction n as [|n IH]; intros [|line rest] st Hn Hst; simpl in *;
    try done; try lia.
  destruct (bool_decide (line ∈ body_parts) && _).
  - destruct rest as [|next rest']; [done|]. apply IH; simpl in *; [lia|done].
  - apply IH; [lia|]. by apply parse_line_nonempty.
Qed.

Lemma leaf_at_clean_duplicates (d : repertory) bp sy sub :
  leaf_at (clean_duplicates d) bp sy sub = clean_leaf <$> leaf_at d bp sy sub.
Proof.
  unfold leaf_at, clean_duplicates. rewrite lookup_fmap.
  destruct (d !! bp) as [syms|]; simpl; [|done].
  rewrite lookup_fmap. destruct (syms !! sy) as [subs|]; simpl; [|done].
  by rewrite lookup_fmap.
Qed.

Lemma sorted_leaf_ok (X : gset string) : X ≠ ∅ → leaf_ok (sorted X).
Proof.
  intros HX. split; [|split].
  - intros E. by apply HX, sorted_nil.
  - apply sorted_NoDup.
  - apply sorted_Sorted.
Qed.

Lemma clean_leaf_ok (l : list string) : l ≠ [] → leaf_ok (clean_leaf l).
Proof.
  intros Hl. apply sorted_leaf_ok. destruct l as [|x l]; [done|].
  intros E. assert (x ∈ set_of (x :: l)) as Hx
    by (apply elem_of_set_of; left).
  rewrite E in Hx. by apply not_elem_of_empty in Hx.
Qed.

Lemma merge_leaf_ok (old meds : list string) :
  meds ≠ [] → leaf_ok (merge_leaf old meds).
Proof.
  intros Hl. apply sorted_leaf_ok. destruct meds as [|x l]; [done|].
  intros E. assert (x ∈ set_of old ∪ set_of (x :: l)) as Hx
    by (apply elem_of_union_r, elem_of_set_of; left).
  rewrite E in Hx. by apply not_elem_of_empty in Hx.
Qed.

Lemma parse_lines_ok lines body_parts :
  all_leaves leaf_ok (parse_lines lines body_parts).
Proof.
  intros bp sy sub leaf. unfold parse_lines.
  rewrite leaf_at_clean_duplicates.
  destruct (leaf_at _ bp sy sub) as [l|] eqn:E; [|done].
  intros [= <-]. apply clean_leaf_ok.
  eapply (parse_loop_nonempty body_parts _ lines); [done| |exact E].
  intros ????. unfold leaf_at. simpl. by rewrite lookup_empty.
Qed.

Lemma merge_data_ok (R A : repertory) :
  all_leaves leaf_ok R → all_leaves leaf_ok A →
  all_leaves leaf_ok (merge_data R A).
Proof.
  intros HR HA bp sy sub leaf H.
  apply leaf_at_merge_data_inv in H as [H|(meds & Hm & ->)].
  - by apply HR in H.
  - apply merge_leaf_ok. by apply HA in Hm as [? _].
Qed.

(** C4: every leaf of a parsed page, and every leaf of the repertory obtained
    by merging any sequence of parsed pages into the empty accumulator, is a
    non-empty, duplicate-free list of remedy names sorted in lexicographic
    order. *)
Theorem leaves_well_formed :
  (∀ lines body_parts, all_leaves leaf_ok (parse_lines lines body_parts)) ∧
  (∀ pages : list (list string * gset string),
     all_leaves leaf_ok
       (foldl (λ all_data page, merge_data all_data (parse_lines page.1 page.2))
              ∅ pages)).
Proof.
  split; [apply parse_lines_ok|].
  intros pages.
  assert (all_leaves leaf_ok (∅ : repertory)) as H0.
  { intros ????. unfold leaf_at. by rewrite lookup_empty. }
  revert H0. generalize (∅ : repertory).
  induction pages as [|page pages IH]; intros acc Hacc; simpl; [done|].
  apply IH, merge_data_ok; [done|apply parse_lines_ok].
Qed.

End ParseInvariant.

(** ** Ordered dicts *)

Section OrderedDict.

Import Py.

Context {V : Type}.
Implicit Types (d : list (string * V)) (k : string) (v : V).

Lemma od_get_set k v d k' :
  od_get k' (od_set k v d) = if decide (k = k') then Some v else od_get k' d.
Proof.
  induction d as [|[k0 v0] d IH]; simpl.
  - destruct (decide (k = k')); [by rewrite bool_decide_true|].
    by rewrite bool_decide_false.
  - destruct (decide (k0 = k)) as [->|Hk0].
    + rewrite bool_decide_true by done. simpl.
      destruct (decide (k = k')); [by rewrite bool_decide_true|].
      by rewrite !bool_decide_false.
    + rewrite bool_decide_false by done. simpl. rewrite IH.
      destruct (decide (k0 = k')) as [->|].
      * rewrite bool_decide_true, decide_False by done. done.
      * by rewrite bool_decide_false.
Qed.

Lemma od_set_keys k v d :
  (od_set k v d).*1 = if decide (k ∈ d.*1) then d.*1 else (d.*1 ++ [k])%list.
Proof.
  induction d as [|[k0 v0] d IH].
  - destruct (decide (k ∈ ([] : list (string * V)).*1)) as [H|_]; [|done].
    by apply elem_of_nil in H.
  - cbn [od_set]. destruct (decide (k0 = k)) as [->|Hk0].
    + rewrite bool_decide_true by done.
      destruct (decide (k ∈ ((k, v0) :: d).*1)) as [_|H]; [done|].
      exfalso. apply H. left.
    + rewrite bool_decide_false by done. rewrite fmap_cons, IH.
      destruct (decide (k ∈ d.*1)) as [Hin|Hnin];
        destruct (decide (k ∈ ((k0, v0) :: d).*1)) as [Hin'|Hnin']; try done.
      * exfalso. apply Hnin'. by right.
      * rewrite fmap_cons in Hin'.
        apply elem_of_cons in Hin' as [?|?]; simpl in *; [congruence|done].
Qed.

Lemma od_set_NoDup k v d : NoDup d.*1 → NoDup (od_set k v d).*1.
Proof.
  intros Hd. rewrite od_set_keys. case_decide; [done|].
  apply NoDup_app. split; [done|]. split; [|apply NoDup_singleton].
  intros x Hx ->%list_elem_of_singleton. done.
Qed.

Lemma elem_of_od_set k v d kv :
  kv ∈ od_set k v d → kv = (k, v) ∨ kv ∈ d.
Proof.
  induction d as [|[k0 v0] d IH]; simpl.
  - intros ->%list_elem_of_singleton. by left.
  - case_bool_decide.
    + intros [->|?]%elem_of_cons; [by left|]. right. by right.
    + intros [->|?]%elem_of_cons; [right; left|].
      destruct IH as [?|?]; [done|by left|]. right. by right.
Qed.

Lemma od_get_elem_of k v d : od_get k d = Some v → (k, v) ∈ d.
Proof.
  induction d as [|[k0 v0] d IH]; simpl; [done|].
  case_bool_decide as E.
  - intros [= ->]. subst. left.
  - intros. right. auto.
Qed.

Lemma od_get_None k d : od_get k d = None ↔ k ∉ d.*1.
Proof.
  induction d as [|[k0 v0] d IH]; simpl.
  - split; [intros _; apply not_elem_of_nil|done].
  - case_bool_decide as E.
    + split; [done|]. intros H. exfalso. apply H. subst. left.
    + rewrite IH, not_elem_of_cons. simpl.
      split; [intros ?; split; [congruence|done]|by intros [_ ?]].
Qed.

Lemma elem_of_od_get k v d : NoDup d.*1 → (k, v) ∈ d → od_get k d = Some v.
Proof.
  induction d as [|[k0 v0] d IH]; simpl.
  - intros _ H. by apply elem_of_nil in H.
  - intros [Hk0 Hd]%NoDup_cons [[= -> ->]|Hin]%elem_of_cons.
    + by rewrite bool_decide_true.
    + rewrite bool_decide_false; [auto|].
      intros ->. apply Hk0. apply list_elem_of_fmap. by exists (k, v).
Qed.

Lemma od_get_perm d d' k :
  NoDup d.*1 → d ≡ₚ d' → od_get k d' = od_get k d.
Proof.
  intros Hd Hp.
  assert (NoDup d'.*1) as Hd' by (by rewrite <- Hp).
  destruct (od_get k d) as [v|] eqn:E.
  - apply elem_of_od_get; [done|]. rewrite <- Hp. by apply od_get_elem_of.
  - apply od_get_None. apply od_get_None in E. by rewrite <- Hp.
Qed.

End OrderedDict.

(** ** The tally of [find_common_remedies] *)

Section Tally.

Import Py Processor.

Lemma od_get_app {V} (k : string) (d1 d2 : list (string * V)) :
  od_get k (d1 ++ d2) =
  match od_get k d1 with Some v => Some v | None => od_get k d2 end.
Proof.
  induction d1 as [|[k0 v0] d1 IH]; simpl; [done|].
  by case_bool_decide.
Qed.

Lemma credit_ok loc t r : tally_ok t → tally_ok (credit loc t r).
Proof.
  intros [Hnd Hlen]. split; simpl.
  - by apply od_set_NoDup.
  - intros r'. rewrite !od_get_set. case_decide; [|apply Hlen].
    rewrite Hlen. destruct (od_get r (remedy_matches t)) as [ms|]; simpl.
    + rewrite length_app. simpl. done.
    + done.
Qed.

Lemma credit_new_ok loc t r : tally_ok t → tally_ok (credit_new loc t r).
Proof.
  intros Ht. unfold credit_new.
  destruct (od_get r (remedy_matches t)); [case_bool_decide|];
    auto using credit_ok.
Qed.

Lemma foldl_ok {A} (f : tally → A → tally) (l : list A) t :
  (∀ t x, tally_ok t → tally_ok (f t x)) →
  tally_ok t → tally_ok (foldl f t l).
Proof.
  intros Hf. revert t. induction l as [|x l IH]; simpl; auto.
Qed.

Lemma score_body_part_ok self syms t bp :
  tally_ok t → tally_ok (score_body_part self syms t bp).
Proof.
  intros Ht. unfold score_body_part.
  destruct (processed_data self !! bp); [|done].
  apply foldl_ok; [|done]. intros t' sym Ht'. unfold score_symptom.
  destruct (_ ≫= _); [|done]. apply foldl_ok; auto using credit_ok.
Qed.

Lemma cross_symptom_ok self bps t sym :
  tally_ok t → tally_ok (cross_symptom self bps t sym).
Proof.
  intros Ht. unfold cross_symptom. apply foldl_ok; [|done].
  intros t' bp Ht'. unfold cross_body_part.
  case_bool_decide; [|done]. destruct (_ !! sym); [|done].
  apply foldl_ok; auto using credit_new_ok.
Qed.

Lemma insert_by_score_perm x l : insert_by_score x l ≡ₚ x :: l.
Proof.
  induction l as [|y l IH]; simpl; [done|].
  destruct (x.2 <? y.2)%nat; [|done].
  rewrite IH. apply Permutation_swap.
Qed.

Lemma sort_by_score_perm l : sort_by_score l ≡ₚ l.
Proof.
  induction l as [|x l IH]; simpl; [done|].
  by rewrite insert_by_score_perm, IH.
Qed.

(** The entries of the result dict come from the sorted scores. *)
Lemma elem_of_build {V} (g : string → nat → V) (l : list (string * nat))
    (res : list (string * V)) kv :
  kv ∈ foldl (λ result '(remedy, sc), od_set remedy (g remedy sc) result) res l →
  kv ∈ res ∨ ∃ sc, (kv.1, sc) ∈ l ∧ kv.2 = g kv.1 sc.
Proof.
  revert res. induction l as [|[k sc] l IH]; intros res; simpl; [by left|].
  intros [H|(sc' & Hin & E)]%IH.
  - apply elem_of_od_set in H as [->|H]; [|by left].
    right. exists sc. split; [left|done].
  - right. exists sc'. split; [by right|done].
Qed.

Lemma od_get_build {V} (g : string → nat → V) (l : list (string * nat)) r :
  NoDup l.*1 →
  od_get r (foldl (λ result '(remedy, sc), od_set remedy (g remedy sc) result) [] l)
  = g r <$> od_get r l.
Proof.
  induction l as [|[k sc] l IH] using rev_ind; [done|].
  rewrite fmap_app. intros [Hl [Hk _]]%NoDup_app.
  rewrite foldl_app. simpl. rewrite od_get_set, od_get_app, IH by done.
  simpl. destruct (decide (k = r)) as [->|Hne].
  - rewrite bool_decide_true by done.
    assert (od_get r l = None) as ->; [|done].
    apply od_get_None. intros Hr. apply (Hk r Hr). left.
  - rewrite bool_decide_false by done. by destruct (od_get r l).
Qed.

End Tally.

Section Query.

Import Py Processor.

Lemma tally_empty_ok : tally_ok (Tally [] []).
Proof. split; [apply NoDup_nil_2|done]. Qed.

(** C9: in every result of [find_common_remedies], the score of every entry
    is the length of its list of matched locations. *)
Theorem score_is_number_of_matches self (bps syms : list string) :
  Forall (λ kv, score kv.2 = List.length (matches kv.2))
         (find_common_remedies self bps syms).
Proof.
  apply Forall_forall. intros [r e] Hin. simpl.
  unfold find_common_remedies in Hin.
  set (t2 := foldl (cross_symptom self bps)
               (foldl (score_body_part self syms) (Tally [] []) bps) syms) in *.
  assert (tally_ok t2) as [Hnd Hlen].
  { apply foldl_ok; [auto using cross_symptom_ok|].
    apply foldl_ok; [auto using score_body_part_ok|apply tally_empty_ok]. }
  assert ((r, e) ∈ foldl (λ result '(remedy, sc),
            od_set remedy (make_entry t2 remedy sc) result) []
            (sort_by_score (remedy_scores t2))) as Hin'.
  { destruct bps, syms; done || by apply elem_of_nil in Hin. }
  apply elem_of_build in Hin' as [H|(sc & Hsc & He)];
    [by apply elem_of_nil in H|]. simpl in *. subst e. simpl.
  rewrite sort_by_score_perm in Hsc.
  apply elem_of_od_get in Hsc; [|done]. rewrite Hlen in Hsc.
  destruct (od_get r (remedy_matches t2)) as [ms|]; simpl in *; congruence.
Qed.

(** The first pair of loops applies the credits in order. *)
Lemma apply_credits_app t cs1 cs2 :
  apply_credits t (cs1 ++ cs2) = apply_credits (apply_credits t cs1) cs2.
Proof. apply foldl_app. Qed.

Lemma score_symptom_credits self bp t sym :
  score_symptom self bp t sym = apply_credits t (credits_symptom self bp sym).
Proof.
  unfold score_symptom, credits_symptom, apply_credits.
  destruct (_ ≫= _) as [remedies|]; [|done].
  revert t. induction remedies as [|r rs IH]; intros t; simpl; [done|].
  apply IH.
Qed.

Lemma score_body_part_credits self syms t bp :
  score_body_part self syms t bp
  = apply_credits t (credits_body_part self syms bp).
Proof.
  unfold score_body_part, credits_body_part.
  destruct (processed_data self !! bp); [|done].
  revert t. induction syms as [|sym syms IH]; intros t; simpl; [done|].
  rewrite apply_credits_app, <- score_symptom_credits. apply IH.
Qed.

Lemma first_loops_credits self bps syms t :
  foldl (score_body_part self syms) t bps
  = apply_credits t (credits self bps syms).
Proof.
  unfold credits. revert t.
  induction bps as [|bp bps IH]; intros t; simpl; [done|].
  rewrite apply_credits_app, <- score_body_part_credits. apply IH.
Qed.

Lemma credit_count_cons c cs r :
  credit_count r (c :: cs)
  = ((if decide (c.2 = r) then 1 else 0) + credit_count r cs)%nat.
Proof.
  unfold credit_count. rewrite filter_cons. by case_decide.
Qed.

Lemma apply_credits_scores cs : ∀ t r,
  od_get r (remedy_scores (apply_credits t cs)) =
  match credit_count r cs with
  | O => od_get r (remedy_scores t)
  | S _ => Some (default 0 (od_get r (remedy_scores t)) + credit_count r cs)%nat
  end.
Proof.
  induction cs as [|[loc r0] cs IH]; intros t r; [done|].
  unfold apply_credits in *. simpl. rewrite IH, credit_count_cons. simpl.
  rewrite od_get_set. destruct (decide (r0 = r)) as [->|E]; simpl.
  - destruct (credit_count r cs); simpl; f_equal; lia.
  - done.
Qed.

Lemma credit_recorded loc t r loc' r' :
  recorded t loc' r' → recorded (credit loc t r) loc' r'.
Proof.
  intros (locs & Hget & Hin). unfold recorded. simpl. rewrite od_get_set.
  case_decide as E; [|eauto]. subst. rewrite Hget. simpl.
  eexists. split; [done|]. apply elem_of_app. by left.
Qed.

Lemma credit_records loc t r : recorded (credit loc t r) loc r.
Proof.
  unfold recorded. simpl. rewrite od_get_set, decide_True by done.
  eexists. split; [done|]. apply elem_of_app. right. left.
Qed.

Lemma apply_credits_cons t c cs :
  apply_credits t (c :: cs) = apply_credits (credit c.1 t c.2) cs.
Proof. done. Qed.

Lemma apply_credits_recorded cs : ∀ t loc r,
  recorded t loc r → recorded (apply_credits t cs) loc r.
Proof.
  induction cs as [|c cs IH]; intros t loc r H; [done|].
  rewrite apply_credits_cons. apply IH. by apply credit_recorded.
Qed.

Lemma apply_credits_records cs : ∀ t loc r,
  (loc, r) ∈ cs → recorded (apply_credits t cs) loc r.
Proof.
  induction cs as [|c cs IH]; intros t loc r H; [by apply elem_of_nil in H|].
  rewrite apply_credits_cons.
  apply elem_of_cons in H as [<-|H]; [|by apply IH].
  apply apply_credits_recorded, credit_records.
Qed.

End Query.

(** ** The second pair of loops adds nothing *)

Section CrossLoops.

Import Py Processor.

Lemma foldl_fixed {A} (f : tally → A → tally) t (l : list A) :
  (∀ x, x ∈ l → f t x = t) → foldl f t l = t.
Proof.
  induction l as [|x l IH]; intros H; simpl; [done|].
  rewrite H by left. apply IH. intros y Hy. apply H. by right.
Qed.

Lemma credit_new_recorded loc t r : recorded t loc r → credit_new loc t r = t.
Proof.
  intros (locs & Hget & Hin). unfold credit_new.
  by rewrite Hget, bool_decide_true.
Qed.

Lemma elem_of_credits self bps syms bp sym remedies r :
  bp ∈ bps → sym ∈ syms →
  default ∅ (processed_data self !! bp) !! sym = Some remedies →
  r ∈ remedies →
  (location bp sym, r) ∈ credits self bps syms.
Proof.
  intros Hbp Hsym Hleaf Hr. unfold credits.
  apply list_elem_of_bind. exists bp. split; [|done].
  unfold credits_body_part.
  destruct (processed_data self !! bp) as [m|] eqn:E; simpl in Hleaf;
    [|by rewrite lookup_empty in Hleaf].
  apply list_elem_of_bind. exists sym. split; [|done].
  unfold credits_symptom. rewrite E. simpl. rewrite Hleaf.
  apply list_elem_of_fmap. by exists r.
Qed.

Lemma cross_loops_fixed self bps syms t :
  (∀ loc r, (loc, r) ∈ credits self bps syms → recorded t loc r) →
  ∀ syms', syms' ⊆ syms → foldl (cross_symptom self bps) t syms' = t.
Proof.
  intros Hrec syms' Hsub. apply foldl_fixed. intros sym Hsym.
  unfold cross_symptom. apply foldl_fixed. intros bp _.
  unfold cross_body_part. case_bool_decide as Hbp; [|done].
  destruct (_ !! sym) as [remedies|] eqn:Hleaf; [|done].
  apply foldl_fixed. intros r Hr. apply credit_new_recorded, Hrec.
  eapply elem_of_credits; eauto.
Qed.

(** The score of a remedy in the result is the number of credits that the
    first pair of loops gives it. *)
Lemma score_of_find self bps syms r :
  score_of r (find_common_remedies self bps syms) =
  match credit_count r (credits self bps syms) with
  | O => None
  | S n => Some (S n)
  end.
Proof.
  unfold score_of, find_common_remedies.
  set (t1 := foldl (score_body_part self syms) (Tally [] []) bps).
  assert (foldl (cross_symptom self bps) t1 syms = t1) as ->.
  { apply (cross_loops_fixed self bps syms); [|done].
    intros loc r' Hin. unfold t1. rewrite first_loops_credits.
    by apply apply_credits_records. }
  assert (tally_ok t1) as [Hnd _].
  { apply foldl_ok; [auto using score_body_part_ok|apply tally_empty_ok]. }
  assert (score <$> od_get r
            (foldl (λ result '(remedy, sc),
                      od_set remedy (make_entry t1 remedy sc) result) []
                   (sort_by_score (remedy_scores t1)))
          = match credit_count r (credits self bps syms) with
            | O => None
            | S n => Some (S n)
            end) as Hmain.
  { rewrite od_get_build by (by rewrite sort_by_score_perm).
    rewrite (od_get_perm (remedy_scores t1)) by
      (done || by rewrite sort_by_score_perm).
    unfold t1. rewrite first_loops_credits, apply_credits_scores. simpl.
    by destruct (credit_count r (credits self bps syms)). }
  destruct bps as [|bp bps], syms as [|sym syms]; exact Hmain.
Qed.

End CrossLoops.

(** ** Monotonicity of the scores *)

Section Monotone.

Import Py Processor.

Lemma credits_mono self bps (syms syms' : list string) :
  syms ⊆+ syms' → credits self bps syms ⊆+ credits self bps syms'.
Proof.
  intros Hsub. unfold credits.
  induction bps as [|bp bps IH]; [done|].
  rewrite !bind_cons. apply submseteq_app; [|done].
  unfold credits_body_part. destruct (processed_data self !! bp); [|done].
  by apply bind_submseteq.
Qed.

Lemma credit_count_mono r (cs cs' : list (string * string)) :
  cs ⊆+ cs' → (credit_count r cs ≤ credit_count r cs')%nat.
Proof.
  intros [k Hk]%submseteq_Permutation. unfold credit_count.
  rewrite Hk, filter_app, length_app. lia.
Qed.

(** C8: for symptom sets [S ⊆ S'] (a set is a duplicate-free list), every
    remedy that has a score for the query [(B, S)] has a score at least as
    large for the query [(B, S')]. *)
Theorem query_monotone self (B S S' : list string) (r : string) (n : nat) :
  NoDup S → S ⊆ S' →
  score_of r (find_common_remedies self B S) = Some n →
  ∃ n', score_of r (find_common_remedies self B S') = Some n' ∧ (n ≤ n')%nat.
Proof.
  intros Hnd Hsub. rewrite !score_of_find.
  pose proof (credit_count_mono r _ _
    (credits_mono self B S S' (NoDup_submseteq _ _ Hnd Hsub))) as Hle.
  destruct (credit_count r (credits self B S)) as [|k]; [done|].
  intros [= <-].
  destruct (credit_count r (credits self B S')) as [|k']; [lia|].
  eauto.
Qed.

End Monotone.

(** ** Scenarios *)

Section Scenarios.

Import Py Scraper Processor.

(** C1, as the code has it: the page lines ["HEAD"], ["p. 109"],
    ["PAIN: throbbing, worse motion: Bell. Nux-v."] with the body parts
    {"HEAD"} parse to {"HEAD": {"PAIN": {"general": ["Bell", "Nux-v"]}}}.
    The remainder after the header starts with the colon, so the split at
    the first colon leaves an empty sub-symptom, which becomes "general". *)
Theorem parse_lines_scenario1 :
  parse_lines ["HEAD"; "p. 109"; "PAIN: throbbing, worse motion: Bell. Nux-v."]
              {["HEAD"]}
  = {["HEAD" := {["PAIN" := {["general" := ["Bell"; "Nux-v"]]}]}]}.
Proof. vm_compute. reflexivity. Qed.

(** C1, as stated, fails: the parser does not return the repertory whose
    sub-symptom key is "throbbing, worse motion". *)
Lemma parse_lines_scenario1_not_as_stated :
  parse_lines ["HEAD"; "p. 109"; "PAIN: throbbing, worse motion: Bell. Nux-v."]
              {["HEAD"]}
  ≠ {["HEAD" := {["PAIN" := {["throbbing, worse motion" := ["Bell"; "Nux-v"]]}]}]}.
Proof.
  intros H.
  apply (f_equal (λ d, leaf_at d "HEAD" "PAIN" "general")) in H.
  vm_compute in H. discriminate H.
Qed.

(** Scenario 2 of the spec (two pages both contributing Bell under
    HEAD/PAIN/general), as an instance of the idempotence theorem. *)
Lemma merge_data_idempotent_witness :
  ∃ leaf,
    leaf_at (merge_data
               (merge_data {["HEAD" := {["PAIN" := {["general" := ["Bell"]]}]}]}
                           {["HEAD" := {["PAIN" := {["general" := ["Bell"]]}]}]})
               {["HEAD" := {["PAIN" := {["general" := ["Bell"]]}]}]})
            "HEAD" "PAIN" "general" = Some leaf
    ∧ occurrences "Bell" leaf = 1.
Proof.
  apply (proj2 (merge_data_idempotent
                  {["HEAD" := {["PAIN" := {["general" := ["Bell"]]}]}]}
                  {["HEAD" := {["PAIN" := {["general" := ["Bell"]]}]}]})
               "HEAD" "PAIN" "general" ["Bell"] "Bell").
  - vm_compute. reflexivity.
  - apply list_elem_of_here.
Defined.

(** An instance of the monotonicity theorem: adding "fever" to the query
    ["pain"] for HEAD. *)
Lemma query_monotone_witness :
  ∃ n', score_of "Bell"
          (find_common_remedies
             (Processor {["HEAD" := {["pain" := ["Bell"]; "fever" := ["Bell"]]}]} ∅ ∅)
             ["HEAD"] ["pain"; "fever"]) = Some n' ∧ (1 ≤ n')%nat.
Proof.
  apply (query_monotone
           (Processor {["HEAD" := {["pain" := ["Bell"]; "fever" := ["Bell"]]}]} ∅ ∅)
           ["HEAD"] ["pain"] ["pain"; "fever"] "Bell" 1).
  - apply NoDup_singleton.
  - intros x Hx. apply list_elem_of_singleton in Hx as ->. apply list_elem_of_here.
  - vm_compute. reflexivity.
Defined.

(** C5 at the failing input {"HEAD": {"PAIN": ["Bell", "Bell"]}}: the one
    queried location HEAD:pain is credited twice to Bell. *)
Theorem duplicate_remedy_scores_twice :
  let self := process_all [("HEAD", [("PAIN", RList [IStr "Bell"; IStr "Bell"])])]
                          init in
  processed_data self = {["HEAD" := {["pain" := ["Bell"; "Bell"]]}]} ∧
  score_of "Bell" (find_common_remedies self ["HEAD"] ["pain"]) = Some 2 ∧
  size (matching_pairs self ["HEAD"] ["pain"] "Bell") = 1.
Proof. vm_compute. repeat split. Qed.

(** C6 at the failing input: looking up a remedy that occurs nowhere adds it
    to [remedy_index]. *)
Theorem get_remedy_details_inserts_unknown :
  let self := process_all [("HEAD", [("PAIN", RList [IStr "Bell"])])] init in
  remedy_index self !! "Zzz" = None ∧
  remedy_index (get_remedy_details "Zzz" self).2 !! "Zzz" = Some ∅ ∧
  size (remedy_index self) = 1 ∧
  size (remedy_index (get_remedy_details "Zzz" self).2) = 2.
Proof. vm_compute. repeat split. Qed.

(** C7 at the failing input {"HEAD": {"PAIN": []}}: the body part HEAD is
    kept with an empty symptom mapping. *)
Theorem process_keeps_empty_body_part :
  (process_data_structure [("HEAD", [("PAIN", RList [])])] init).1
  = {["HEAD" := ∅]}.
Proof. vm_compute. reflexivity. Qed.

End Scenarios.

(** ** Normalization of symptom names *)

Section Strip.

Import Py.

Implicit Types (p q : ascii → bool) (l : list ascii).

Lemma take_drop_while p l : (take_while p l ++ drop_while p l)%list = l.
Proof.
  induction l as [|a l IH]; simpl; [done|].
  destruct (p a); simpl; [by rewrite IH|done].
Qed.

Lemma drop_while_length p l :
  (List.length (drop_while p l) ≤ List.length l)%nat.
Proof.
  induction l as [|a l IH]; simpl; [done|]. destruct (p a); simpl; lia.
Qed.

Lemma drop_while_head p l a :
  head (drop_while p l) = Some a → p a = false.
Proof.
  induction l as [|b l IH]; simpl; [done|].
  destruct (p b) eqn:E; [done|]. simpl. by intros [= <-].
Qed.

Lemma drop_while_fixed p l :
  drop_while p l = l ↔ ∀ a, head l = Some a → p a = false.
Proof.
  split.
  - intros E a Ha. rewrite <- E in Ha. by apply drop_while_head in Ha.
  - destruct l as [|b l]; simpl; [done|].
    intros H. by rewrite (H b eq_refl).
Qed.

Lemma drop_while_idemp p l : drop_while p (drop_while p l) = drop_while p l.
Proof. apply drop_while_fixed. apply drop_while_head. Qed.

Lemma drop_while_fixed_weaken p q l :
  (∀ a, q a = true → p a = true) →
  drop_while p l = l → drop_while q l = l.
Proof.
  intros Hqp Hp. apply drop_while_fixed. intros a Ha.
  destruct (q a) eqn:E; [|done].
  apply Hqp in E. rewrite drop_while_fixed in Hp. by rewrite (Hp a Ha) in E.
Qed.

Lemma rstrip_by_prefix p l : ∃ z, l = (rstrip_by p l ++ z)%list.
Proof.
  exists (reverse (take_while p (reverse l))). unfold rstrip_by.
  rewrite <- reverse_app, take_drop_while. by rewrite reverse_involutive.
Qed.

Lemma reverse_rstrip_by p l : reverse (rstrip_by p l) = drop_while p (reverse l).
Proof. unfold rstrip_by. by rewrite reverse_involutive. Qed.

Lemma rstrip_by_fixed p l :
  rstrip_by p l = l ↔ drop_while p (reverse l) = reverse l.
Proof.
  unfold rstrip_by. split.
  - intros E. rewrite <- E at 2. by rewrite reverse_involutive.
  - intros ->. by rewrite reverse_involutive.
Qed.

(** What [strip_by] returns starts and ends outside the class. *)
Lemma strip_by_lstrip p l : drop_while p (strip_by p l) = strip_by p l.
Proof.
  unfold strip_by, lstrip_by. apply drop_while_fixed. intros a Ha.
  destruct (rstrip_by_prefix p (drop_while p l)) as [z Hz].
  apply (drop_while_head p l). rewrite Hz.
  destruct (rstrip_by p (drop_while p l)); [done|exact Ha].
Qed.

Lemma strip_by_rstrip p l : rstrip_by p (strip_by p l) = strip_by p l.
Proof.
  apply rstrip_by_fixed. unfold strip_by.
  rewrite reverse_rstrip_by. apply drop_while_idemp.
Qed.

Lemma strip_by_fixed p q l :
  (∀ a, q a = true → p a = true) →
  strip_by q (strip_by p l) = strip_by p l.
Proof.
  intros Hqp. unfold strip_by at 1. unfold lstrip_by.
  rewrite (drop_while_fixed_weaken p q) by (done || apply strip_by_lstrip).
  apply rstrip_by_fixed. apply (drop_while_fixed_weaken p q); [done|].
  apply rstrip_by_fixed, strip_by_rstrip.
Qed.

Lemma Forall_drop_while (P : ascii → Prop) p l :
  Forall P l → Forall P (drop_while p l).
Proof.
  induction 1 as [|a l Ha Hl IH]; simpl; [done|].
  destruct (p a); [done|by constructor].
Qed.

Lemma Forall_strip_by (P : ascii → Prop) p l :
  Forall P l → Forall P (strip_by p l).
Proof.
  intros H. unfold strip_by, rstrip_by, lstrip_by.
  by apply Forall_reverse, Forall_drop_while, Forall_reverse, Forall_drop_while.
Qed.

End Strip.

Section Normalize.

Import Py Processor.

Implicit Types (l : list ascii).

Lemma lower_char_idemp a : lower_char (lower_char a) = lower_char a.
Proof. by destruct a as [[] [] [] [] [] [] [] []]. Qed.

Lemma is_space_is_punct a : is_space a = true → is_punct a = true.
Proof. unfold is_punct. intros ->. by rewrite !orb_true_r. Qed.

Lemma well_spaced_collapse l : ∀ b, well_spaced b (collapse_spaces b l) = true.
Proof.
  induction l as [|a l IH]; intros b; simpl; [done|].
  destruct (is_space a) eqn:E.
  - destruct b; [apply IH|]. simpl. by rewrite IH.
  - simpl. rewrite E. apply IH.
Qed.

Lemma collapse_well_spaced l : ∀ b,
  well_spaced b l = true → collapse_spaces b l = l.
Proof.
  induction l as [|a l IH]; intros b; simpl; [done|].
  destruct (is_space a) eqn:E.
  - destruct b; simpl; [done|]. case_bool_decide as Ha; simpl; [|done].
    intros H. by rewrite IH, Ha.
  - intros H. by rewrite IH.
Qed.

Lemma well_spaced_weaken l b : well_spaced b l = true → well_spaced false l = true.
Proof.
  destruct l as [|a l]; simpl; [done|].
  destruct (is_space a); [|done]. by destruct b.
Qed.

Lemma well_spaced_tail a l b :
  well_spaced b (a :: l) = true → well_spaced false l = true.
Proof.
  simpl. destruct (is_space a); [|done].
  intros [[_ _]%andb_true_iff H]%andb_true_iff.
  by apply well_spaced_weaken in H.
Qed.

Lemma well_spaced_drop_while p l :
  well_spaced false l = true → well_spaced false (drop_while p l) = true.
Proof.
  induction l as [|a l IH]; simpl; [done|].
  destruct (p a); [|done]. intros H. apply IH.
  by apply (well_spaced_tail a l false).
Qed.

Lemma well_spaced_prefix l1 : ∀ l2 b,
  well_spaced b (l1 ++ l2) = true → well_spaced b l1 = true.
Proof.
  induction l1 as [|a l1 IH]; intros l2 b; simpl; [done|].
  destruct (is_space a).
  - intros [H1 H2]%andb_true_iff. rewrite H1. simpl. by apply IH in H2.
  - apply IH.
Qed.

Lemma well_spaced_trim l :
  well_spaced false l = true → well_spaced false (trim_punct l) = true.
Proof.
  intros H. unfold trim_punct, lstrip_by.
  apply (well_spaced_drop_while is_punct) in H.
  destruct (rstrip_by_prefix is_punct (drop_while is_punct l)) as [z Hz].
  rewrite Hz in H. by apply well_spaced_prefix in H.
Qed.

Lemma Forall_collapse (P : ascii → Prop) l : ∀ b,
  P " "%char → Forall P l → Forall P (collapse_spaces b l).
Proof.
  induction l as [|a l IH]; intros b Hsp Hl; simpl; [done|].
  apply Forall_cons in Hl as [Ha Hl].
  destruct (is_space a); [destruct b|]; auto.
Qed.

Lemma lower_chars_fixed l :
  Forall (λ a, lower_char a = a) l → lower_chars l = l.
Proof.
  unfold lower_chars. induction 1 as [|a l Ha Hl IH]; [done|].
  by rewrite fmap_cons, Ha, IH.
Qed.

Lemma clean_chars_lower l : Forall (λ a, lower_char a = a) (clean_chars l).
Proof.
  unfold clean_chars, trim_punct.
  apply (Forall_strip_by _ is_punct), Forall_collapse; [done|].
  apply Forall_strip_by. unfold lower_chars.
  apply Forall_fmap, Forall_true. intros a. apply lower_char_idemp.
Qed.

Lemma clean_chars_idemp l : clean_chars (clean_chars l) = clean_chars l.
Proof.
  unfold clean_chars at 1.
  rewrite lower_chars_fixed by apply clean_chars_lower.
  assert (strip_by is_space (clean_chars l) = clean_chars l) as ->.
  { apply (strip_by_fixed is_punct is_space), is_space_is_punct. }
  assert (collapse_spaces false (clean_chars l) = clean_chars l) as ->.
  { apply collapse_well_spaced, well_spaced_trim, well_spaced_collapse. }
  apply (strip_by_fixed is_punct is_punct). auto.
Qed.

Lemma first_root_elem_of table l v :
  first_root table l = Some v → v ∈ table.*2.
Proof.
  induction table as [|[key value] table IH]; simpl; [done|].
  destruct (contains (chars_of key) l).
  - intros [= ->]. left.
  - intros H. right. auto.
Qed.

Lemma normalize_root v :
  v ∈ normalizations.*2 → normalize_symptom_name v = v.
Proof.
  revert v. apply Forall_forall.
  apply (bool_decide_unpack _). vm_compute. exact I.
Qed.

Lemma chars_of_str_of l : chars_of (str_of l) = l.
Proof. apply list_ascii_of_string_of_list_ascii. Qed.

(** C10: normalizing a normalized symptom name changes nothing. *)
Theorem normalize_symptom_name_idempotent (s : string) :
  normalize_symptom_name (normalize_symptom_name s) = normalize_symptom_name s.
Proof.
  destruct (first_root normalizations (clean_chars (chars_of s)))
    as [v|] eqn:E.
  - assert (normalize_symptom_name s = v) as ->
      by (unfold normalize_symptom_name; by rewrite E).
    apply normalize_root. by eapply first_root_elem_of.
  - assert (normalize_symptom_name s = str_of (clean_chars (chars_of s))) as ->
      by (unfold normalize_symptom_name; by rewrite E).
    unfold normalize_symptom_name.
    by rewrite chars_of_str_of, clean_chars_idemp, E.
Qed.

End Normalize.

(** ** When the score does count the matching pairs *)

Section ScoreCount.

Import Py Processor.

Lemma credit_count_app r (cs1 cs2 : list (string * string)) :
  credit_count r (cs1 ++ cs2) = (credit_count r cs1 + credit_count r cs2)%nat.
Proof. unfold credit_count. by rewrite filter_app, length_app. Qed.

Lemma credit_count_leaf r loc (leaf : list string) :
  credit_count r ((λ r', (loc, r')) <$> leaf) = Scraper.occurrences r leaf.
Proof.
  unfold credit_count, Scraper.occurrences.
  induction leaf as [|x leaf IH]; [done|].
  rewrite fmap_cons, !filter_cons. simpl.
  destruct (decide (x = r)); simpl; by rewrite IH.
Qed.

(** The get-details lookup of a remedy that is in the index changes nothing. *)
Lemma get_remedy_details_known remedy self s :
  remedy_index self !! remedy = Some s →
  (get_remedy_details remedy self).2 = self.
Proof.
  intros H. unfold get_remedy_details, defaultdict_getitem. rewrite H.
  by destruct self.
Qed.

Section NoDupLeaves.

Context (self : processor).
Hypothesis leaves_NoDup : ∀ bp syms sy leaf,
  processed_data self !! bp = Some syms → syms !! sy = Some leaf → NoDup leaf.

Lemma credit_count_symptom r bp sy :
  credit_count r (credits_symptom self bp sy)
  = if leaf_has self r (bp, sy) then 1%nat else 0%nat.
Proof.
  unfold credits_symptom, leaf_has. simpl.
  destruct (processed_data self !! bp) as [syms|] eqn:Hbp; simpl; [|done].
  destruct (syms !! sy) as [leaf|] eqn:Hsy; simpl; [|done].
  rewrite credit_count_leaf. pose proof (leaves_NoDup _ _ _ _ Hbp Hsy).
  case_bool_decide.
  - by apply occurrences_NoDup.
  - by apply occurrences_notin.
Qed.

Lemma credit_count_body_part r bp (syms : list string) :
  credit_count r (credits_body_part self syms bp)
  = List.length (filter (λ p, leaf_has self r p = true)
                        ((λ sy, (bp, sy)) <$> syms)).
Proof.
  unfold credits_body_part.
  destruct (processed_data self !! bp) as [m|] eqn:Hbp.
  - induction syms as [|sy syms IH]; [done|].
    rewrite bind_cons, credit_count_app, credit_count_symptom, IH.
    rewrite fmap_cons, filter_cons.
    destruct (leaf_has self r (bp, sy)).
    + rewrite decide_True by done. done.
    + rewrite decide_False by done. done.
  - induction syms as [|sy syms IH]; [done|].
    rewrite fmap_cons, filter_cons, decide_False; [done|].
    unfold leaf_has. simpl. by rewrite Hbp.
Qed.

Lemma credit_count_credits r (bps syms : list string) :
  credit_count r (credits self bps syms)
  = List.length (filter (λ p, leaf_has self r p = true)
                        (bps ≫= λ bp, (λ sy, (bp, sy)) <$> syms)).
Proof.
  unfold credits. induction bps as [|bp bps IH]; [done|].
  rewrite !bind_cons, credit_count_app, filter_app, length_app.
  rewrite credit_count_body_part, IH. lia.
Qed.

Lemma pairs_NoDup (bps syms : list string) :
  NoDup bps → NoDup syms →
  NoDup (bps ≫= λ bp, (λ sy, (bp, sy)) <$> syms).
Proof.
  intros Hb Hs. induction Hb as [|bp bps Hbp Hb IH]; [apply NoDup_nil_2|].
  rewrite bind_cons. apply NoDup_app. split; [|split; [|done]].
  - apply NoDup_fmap_2; [|done]. by intros ?? [=].
  - intros p [sy [-> _]]%list_elem_of_fmap
             [bp' [[sy' [[= <- _] _]]%list_elem_of_fmap Hbp']]%list_elem_of_bind.
    done.
Qed.

(** With duplicate-free leaves and a query given by duplicate-free lists, the
    score of a remedy is the number of queried pairs whose leaf contains
    it. *)
Lemma score_counts_matching_pairs (bps syms : list string) r n :
  NoDup bps → NoDup syms →
  score_of r (find_common_remedies self bps syms) = Some n →
  n = size (matching_pairs self bps syms r).
Proof.
  intros Hb Hs. rewrite score_of_find.
  unfold matching_pairs.
  rewrite size_list_to_set by (by apply NoDup_filter, pairs_NoDup).
  rewrite <- credit_count_credits.
  destruct (credit_count r (credits self bps syms)); [done|].
  by intros [= <-].
Qed.

End NoDupLeaves.

End ScoreCount.

(** * Further properties of the scraper *)

(** ** More on stripping *)

Section StripMore.

Import Py.

Implicit Types (p : ascii → bool) (l : list ascii).

Lemma take_while_Forall p l : Forall (λ a, p a = true) (take_while p l).
Proof.
  induction l as [|a l IH]; simpl; [done|].
  destruct (p a) eqn:E; [by constructor|done].
Qed.

Lemma drop_while_snoc p l a :
  p a = false → drop_while p (l ++ [a]) = (drop_while p l ++ [a])%list.
Proof.
  intros Ha. induction l as [|b l IH]; simpl; [by rewrite Ha|].
  by destruct (p b).
Qed.

Lemma rstrip_by_cons p a l :
  p a = false → rstrip_by p (a :: l) = a :: rstrip_by p l.
Proof.
  intros Ha. unfold rstrip_by.
  by rewrite reverse_cons, drop_while_snoc, reverse_app by done.
Qed.

Lemma rstrip_by_snoc p l a :
  p a = true → rstrip_by p (l ++ [a]) = rstrip_by p l.
Proof.
  intros Ha. unfold rstrip_by. rewrite reverse_app. simpl. by rewrite Ha.
Qed.

Lemma Forall_rstrip_by (P : ascii → Prop) p l :
  Forall P l → Forall P (rstrip_by p l).
Proof.
  intros H. unfold rstrip_by.
  by apply Forall_reverse, Forall_drop_while, Forall_reverse.
Qed.

Lemma drop_while_Forall_false p l :
  Forall (λ a, p a = false) l → drop_while p l = l.
Proof. intros [|a l' Ha _]; simpl; [done|by rewrite Ha]. Qed.

Lemma rstrip_by_Forall_false p l :
  Forall (λ a, p a = false) l → rstrip_by p l = l.
Proof.
  intros H. unfold rstrip_by.
  rewrite drop_while_Forall_false by (by apply Forall_reverse).
  apply reverse_involutive.
Qed.

Lemma strip_by_Forall_false p l :
  Forall (λ a, p a = false) l → strip_by p l = l.
Proof.
  intros H. unfold strip_by, lstrip_by.
  by rewrite drop_while_Forall_false, rstrip_by_Forall_false.
Qed.

Lemma chars_of_on_chars f s : chars_of (on_chars f s) = f (chars_of s).
Proof. unfold on_chars. apply chars_of_str_of. Qed.

Lemma str_of_chars_of s : str_of (chars_of s) = s.
Proof. apply string_of_list_ascii_of_string. Qed.

Lemma on_chars_strip_fixed p q s :
  (∀ a, q a = true → p a = true) →
  on_chars (strip_by q) (on_chars (strip_by p) s) = on_chars (strip_by p) s.
Proof.
  intros Hqp. unfold on_chars at 1. rewrite chars_of_on_chars.
  by rewrite strip_by_fixed.
Qed.

Lemma truthy_true s : truthy s = true ↔ s ≠ "".
Proof.
  unfold truthy. case_bool_decide; split; try done.
Qed.

(** Facts on single characters, by cases on the eight bits. *)
Lemma is_AZ_not_space a : is_AZ a = true → is_space a = false.
Proof. by destruct a as [[] [] [] [] [] [] [] []]. Qed.

Lemma is_letter_upper a : is_letter a = true → is_AZ (upper_char a) = true.
Proof. by destruct a as [[] [] [] [] [] [] [] []]. Qed.

Lemma is_med_char_lower a :
  Scraper.is_med_char a = true →
  Scraper.is_lower_med_char (lower_char a) = true.
Proof. by destruct a as [[] [] [] [] [] [] [] []]. Qed.

Lemma is_med_char_plain a :
  Scraper.is_med_char a = true →
  Scraper.is_dot a = false ∧ is_space a = false.
Proof. by destruct a as [[] [] [] [] [] [] [] []]. Qed.

Lemma is_letter_med_char a :
  is_letter a = true → Scraper.is_med_char a = true.
Proof. unfold Scraper.is_med_char. by intros ->. Qed.

End StripMore.

(** ** The shape of the remedy names *)

Section RemedyShape.

Import Py Scraper.

(** A token of [findall_meds], cleaned, is a capitalized abbreviation. *)
Lemma clean_med_token a (run : list ascii) :
  is_letter a = true → Forall (λ c, is_med_char c = true) run →
  (List.length run ≤ 20)%nat →
  remedy_shape (clean_med (str_of (a :: run ++ ["."%char])%list)) = true.
Proof.
  intros Ha Hrun Hlen.
  assert (Forall (λ c, is_med_char c = true) (a :: run)) as Hall
    by (constructor; [by apply is_letter_med_char|done]).
  unfold clean_med, capitalize, strip, remedy_shape.
  rewrite !chars_of_on_chars, chars_of_str_of.
  change (a :: run ++ ["."%char])%list with ((a :: run) ++ ["."%char])%list.
  rewrite rstrip_by_snoc by done.
  rewrite rstrip_by_Forall_false
    by (eapply Forall_impl; [exact Hall|]; intros c Hc;
        by apply is_med_char_plain in Hc as [? _]).
  rewrite strip_by_Forall_false
    by (eapply Forall_impl; [exact Hall|]; intros c Hc;
        by apply is_med_char_plain in Hc as [_ ?]).
  simpl. rewrite is_letter_upper by done. simpl.
  unfold lower_chars. rewrite length_fmap.
  apply andb_true_iff. split; [|by apply Nat.leb_le].
  apply Is_true_true, forallb_True, Forall_fmap.
  eapply Forall_impl; [exact Hrun|]. intros c Hc. simpl.
  by apply Is_true_true, is_med_char_lower.
Qed.

Lemma findall_meds_shape l : ∀ skip prev_word,
  Forall (λ r, remedy_shape r = true)
         (clean_med <$> findall_meds skip prev_word l).
Proof.
  induction l as [|a l IH]; intros skip prev_word; simpl;
    [apply Forall_nil_2|].
  destruct skip as [|k]; [|apply IH].
  destruct (negb prev_word && is_letter a &&
            (List.length (take_while is_med_char l) <=? 20)%nat &&
            starts_with_dot (drop_while is_med_char l)) eqn:E; [|apply IH].
  rewrite fmap_cons. constructor; [|apply IH].
  apply andb_true_iff in E as [E _].
  apply andb_true_iff in E as [E Hlen].
  apply andb_true_iff in E as [_ Ha].
  apply clean_med_token; [done|apply take_while_Forall|by apply Nat.leb_le].
Qed.

Lemma store_leaves (P : string → Prop) bp sy sub meds (d : repertory) :
  all_leaves (Forall P) d → Forall P meds →
  all_leaves (Forall P) (store bp sy sub meds d).
Proof.
  intros Hd Hm bp' sy' sub' leaf. rewrite leaf_at_store.
  case_decide; [|apply Hd].
  intros [= <-]. apply Forall_app. split; [|done].
  destruct (leaf_at d bp sy sub) as [l|] eqn:E; simpl; [|done].
  by apply Hd in E.
Qed.

Lemma parse_line_shape line st :
  all_leaves (Forall (λ r, remedy_shape r = true)) (data st) →
  all_leaves (Forall (λ r, remedy_shape r = true)) (data (parse_line line st)).
Proof.
  intros Hst. unfold parse_line. cbv zeta.
  repeat case_match; simpl; try done;
    (apply store_leaves; [done|]);
    match goal with
    | H : clean_med <$> findall_meds ?k ?b ?l = _ |- _ =>
        rewrite <- H; apply findall_meds_shape
    end.
Qed.

Lemma parse_loop_shape body_parts n : ∀ lines st,
  (List.length lines ≤ n)%nat →
  all_leaves (Forall (λ r, remedy_shape r = true)) (data st) →
  all_leaves (Forall (λ r, remedy_shape r = true))
             (data (parse_loop body_parts lines st)).
Proof.
  induction n as [|n IH]; intros [|line rest] st Hn Hst; simpl in *;
    try done; try lia.
  destruct (bool_decide (line ∈ body_parts) && _).
  - destruct rest as [|next rest']; [done|]. apply IH; simpl in *; [lia|done].
  - apply IH; [lia|]. by apply parse_line_shape.
Qed.

Lemma Forall_sorted (P : string → Prop) (X : gset string) :
  (∀ x, x ∈ X → P x) → Forall P (sorted X).
Proof.
  intros H. apply Forall_forall. intros x Hx. by apply H, elem_of_sorted.
Qed.

Lemma parse_lines_shape lines body_parts :
  all_leaves (Forall (λ r, remedy_shape r = true))
             (parse_lines lines body_parts).
Proof.
  intros bp sy sub leaf. unfold parse_lines.
  rewrite leaf_at_clean_duplicates.
  destruct (leaf_at _ bp sy sub) as [l|] eqn:E; [|done].
  intros [= <-]. apply Forall_sorted. intros x Hx%elem_of_set_of.
  assert (Forall (λ r, remedy_shape r = true) l) as Hl.
  { eapply (parse_loop_shape body_parts _ lines); [done| |exact E].
    intros ????. unfold leaf_at. simpl. by rewrite lookup_empty. }
  by eapply Forall_forall in Hl.
Qed.

Lemma merge_data_leaves (P : string → Prop) (R A : repertory) :
  all_leaves (Forall P) R → all_leaves (Forall P) A →
  all_leaves (Forall P) (merge_data R A).
Proof.
  intros HR HA bp sy sub leaf H.
  apply leaf_at_merge_data_inv in H as [H|(meds & Hm & ->)].
  - by apply HR in H.
  - apply Forall_sorted. intros x [Hx|Hx]%elem_of_union.
    + apply elem_of_set_of in Hx.
      destruct (leaf_at R bp sy sub) as [l|] eqn:E; simpl in Hx;
        [|by apply elem_of_nil in Hx].
      apply HR in E. by eapply Forall_forall in E.
    + apply elem_of_set_of in Hx. apply HA in Hm.
      by eapply Forall_forall in Hm.
Qed.

Lemma scrape_all_pages_leaves (P : string → Prop) fetched : ∀ R,
  (∀ lines body_parts, all_leaves (Forall P) (parse_lines lines body_parts)) →
  all_leaves (Forall P) R →
  all_leaves (Forall P) (scrape_all_pages fetched R).
Proof.
  unfold scrape_all_pages.
  induction fetched as [|page fetched IH]; intros R Hp HR; simpl; [done|].
  apply IH; [done|]. destruct (page.1); [done|].
  by apply merge_data_leaves.
Qed.

(** Every remedy name that the parser stores, and every remedy name in the
    repertory scraped from any pages into the empty accumulator, is an
    upper-case letter followed by at most 20 lower-case letters or
    hyphens. *)
Theorem remedy_names_capitalized :
  (∀ lines body_parts,
     all_leaves (Forall (λ r, remedy_shape r = true))
                (parse_lines lines body_parts)) ∧
  (∀ fetched,
     all_leaves (Forall (λ r, remedy_shape r = true))
                (scrape_all_pages fetched ∅)).
Proof.
  split; [apply parse_lines_shape|].
  intros fetched. apply scrape_all_pages_leaves; [apply parse_lines_shape|].
  intros ????. unfold leaf_at. by rewrite lookup_empty.
Qed.

End RemedyShape.

(** ** The keys of a parsed page *)

Section ParseKeys.

Import Py Scraper.

Lemma symptom_shape_strip a r (run : list ascii) :
  is_AZ a = true → Forall (λ c, is_header_char c = true) (r :: run) →
  symptom_shape (strip (str_of (a :: r :: run))) = true.
Proof.
  intros Ha Hrun. unfold symptom_shape, strip.
  rewrite chars_of_on_chars, chars_of_str_of.
  unfold strip_by, lstrip_by. simpl.
  rewrite (is_AZ_not_space a Ha).
  rewrite rstrip_by_cons by (by apply is_AZ_not_space).
  rewrite Ha. simpl.
  apply Is_true_true, forallb_True.
  apply Forall_rstrip_by. eapply Forall_impl; [exact Hrun|].
  intros c Hc. simpl. by apply Is_true_true.
Qed.

Lemma match_symptom_shape line g1 g2 :
  match_symptom line = Some (g1, g2) → symptom_ok (strip g1).
Proof.
  unfold match_symptom. intros H. split.
  - destruct (chars_of line) as [|a l]; [done|].
    destruct (is_AZ a) eqn:Ha; [|done].
    pose proof (take_while_Forall is_header_char l) as Hrun.
    destruct (take_while is_header_char l) as [|r run]; [done|].
    destruct (at_end _); [|done]. injection H as <- _.
    by apply symptom_shape_strip.
  - apply on_chars_strip_fixed. auto.
Qed.

Lemma general_sub_ok : sub_symptom_ok "general".
Proof. by vm_compute. Qed.

Lemma split_colon_sub_ok remainder sub_part meds_part :
  split_colon_once remainder = (sub_part, meds_part) →
  has_colon (on_chars (strip_by is_sub_trim) sub_part) = false.
Proof.
  unfold split_colon_once. intros [= <- _]. unfold has_colon.
  rewrite chars_of_on_chars, chars_of_str_of.
  apply not_true_is_false. intros H. apply existsb_exists in H as (c & Hin & Hc).
  pose proof (take_while_Forall not_colon (chars_of remainder)) as Hall.
  apply (Forall_strip_by _ is_sub_trim) in Hall.
  apply list_elem_of_In in Hin.
  eapply Forall_forall in Hall; [|exact Hin]. simpl in Hall.
  unfold not_colon in Hall. by rewrite Hc in Hall.
Qed.

Lemma split_colon_sub_symptom_ok remainder sub_part meds_part :
  split_colon_once remainder = (sub_part, meds_part) →
  truthy (on_chars (strip_by is_sub_trim) sub_part) = true →
  sub_symptom_ok (on_chars (strip_by is_sub_trim) sub_part).
Proof.
  intros Hsplit Ht. split; [by apply truthy_true|]. split.
  - by eapply split_colon_sub_ok.
  - apply on_chars_strip_fixed. auto.
Qed.

Lemma store_keys bp sy sub meds (d : repertory) :
  all_keys key_ok d → key_ok bp sy sub →
  all_keys key_ok (store bp sy sub meds d).
Proof.
  intros Hd Hk bp' sy' sub' leaf. rewrite leaf_at_store.
  case_decide as E; [|apply Hd]. by destruct E as (<- & <- & <-).
Qed.

Lemma store_dom bp sy sub meds (d : repertory) :
  dom (store bp sy sub meds d) = {[bp]} ∪ dom d.
Proof. unfold store. apply dom_insert_L. Qed.

Lemma parse_line_state_ok body_parts page line st :
  state_ok body_parts page st → state_ok body_parts page (parse_line line st).
Proof.
  intros (Hkeys & Hdom & Hbp & Hsy). unfold parse_line. cbv zeta.
  pose proof general_sub_ok as Hgen.
  assert (∀ bp, current_body_part st = Some bp →
            {[bp]} ∪ dom (data st) ⊆ body_parts ∩ list_to_set page) as Hdom'.
  { intros bp [? ?]%Hbp. set_solver. }
  destruct (match_symptom line) as [[g1 g2]|] eqn:Hm.
  - pose proof (match_symptom_shape _ _ _ Hm) as Hg1.
    repeat case_match; simplify_eq; simpl;
      (split; [|split; [|split]]); simpl; try done;
      try (by intros ? [= <-]);
      try (apply store_keys; [done|split; [done|]];
           first [done | by eapply split_colon_sub_symptom_ok]);
      rewrite store_dom; by apply Hdom'.
  - destruct (truthy_opt (current_symptom st)) eqn:Ht; [|done].
    destruct (current_symptom st) as [sy0|] eqn:Hcs; [|done].
    pose proof (Hsy _ eq_refl) as Hsy0.
    repeat case_match; simplify_eq; simpl;
      (split; [|split; [|split]]); simpl; try done;
      try (by intros ? [= <-]);
      try (apply store_keys; [done|split; [done|]];
           first [done | by eapply split_colon_sub_symptom_ok]);
      rewrite store_dom; by apply Hdom'.
Qed.

Lemma parse_loop_state_ok body_parts page n : ∀ lines st,
  (List.length lines ≤ n)%nat → lines ⊆ page →
  state_ok body_parts page st →
  state_ok body_parts page (parse_loop body_parts lines st).
Proof.
  induction n as [|n IH]; intros [|line rest] st Hn Hsub Hst; simpl in *;
    try done; try lia.
  destruct (bool_decide (line ∈ body_parts) && _) eqn:E.
  - destruct rest as [|next rest']; [done|].
    apply andb_true_iff in E as [Hin%bool_decide_eq_true _].
    apply IH; simpl in *; [lia|set_solver|].
    destruct Hst as (Hkeys & Hdom & Hbp & Hsy).
    split; [done|]. split; [done|]. split; simpl.
    + intros bp [= <-]. split; [done|]. apply Hsub. left.
    + done.
  - apply IH; [lia|set_solver|]. by apply parse_line_state_ok.
Qed.

Lemma parse_lines_state_ok lines body_parts :
  all_keys key_ok (parse_lines lines body_parts) ∧
  dom (parse_lines lines body_parts) ⊆ body_parts ∩ list_to_set lines.
Proof.
  assert (state_ok body_parts lines
            (parse_loop body_parts lines (PState ∅ None None)))
    as (Hkeys & Hdom & _).
  { apply (parse_loop_state_ok body_parts lines (List.length lines));
      [done|done|].
    split; [|split; [|split]]; simpl; try done.
    all: try (intros ????; unfold leaf_at; by rewrite lookup_empty).
    all: rewrite dom_empty_L; apply empty_subseteq. }
  unfold parse_lines. split.
  - intros bp sy sub leaf. rewrite leaf_at_clean_duplicates.
    destruct (leaf_at _ bp sy sub) as [l|] eqn:E; [|done].
    intros _. by apply Hkeys in E.
  - unfold clean_duplicates. by rewrite dom_fmap_L.
Qed.

(** Every body-part key of a parsed page is one of the known body parts and
    is itself a line of the page. *)
Theorem parse_lines_body_parts lines body_parts :
  dom (parse_lines lines body_parts) ⊆ body_parts ∩ list_to_set lines.
Proof. apply parse_lines_state_ok. Qed.

(** Every symptom key of a parsed page starts with an upper-case letter,
    consists of upper-case letters, whitespace and hyphens, and has no
    whitespace at its ends. *)
Theorem parse_lines_symptom_keys lines body_parts :
  all_keys (λ _ sy _, symptom_shape sy = true ∧ strip sy = sy)
           (parse_lines lines body_parts).
Proof.
  intros bp sy sub leaf H.
  by apply (proj1 (parse_lines_state_ok lines body_parts)) in H as [? _].
Qed.

(** Every sub-symptom key of a parsed page is non-empty, contains no colon
    and neither starts nor ends with a space, a comma or a period. *)
Theorem parse_lines_sub_symptom_keys lines body_parts :
  all_keys (λ _ _ sub,
              sub ≠ "" ∧ has_colon sub = false ∧
              on_chars (strip_by is_sub_trim) sub = sub)
           (parse_lines lines body_parts).
Proof.
  intros bp sy sub leaf H.
  by apply (proj1 (parse_lines_state_ok lines body_parts)) in H as [_ ?].
Qed.

End ParseKeys.

(** ** More on merging *)

Section MergeMore.

Import Py Scraper.

Lemma merge_items_comm_acc {V W} (dflt : W) (step : W → V → W)
    (a b : gmap string V) (r : gmap string W) :
  (∀ w x y, step (step w x) y = step (step w y) x) →
  merge_items dflt step b (merge_items dflt step a r)
  = merge_items dflt step a (merge_items dflt step b r).
Proof.
  intros Hstep. apply map_eq; intros k.
  rewrite !merge_items_lookup.
  destruct (a !! k) as [x|], (b !! k) as [y|]; simpl; [|done..].
  f_equal. apply Hstep.
Qed.

Lemma merge_items_empty_id {V} (dflt : V) (step : V → V → V)
    (a : gmap string V) :
  (∀ k x, a !! k = Some x → step dflt x = x) →
  merge_items dflt step a ∅ = a.
Proof.
  intros Hstep. apply map_eq; intros k.
  rewrite merge_items_lookup, lookup_empty.
  destruct (a !! k) as [x|] eqn:E; simpl; [|done]. f_equal. by eapply Hstep.
Qed.

Lemma merge_leaf_comm_acc (w x y : list string) :
  merge_leaf (merge_leaf w x) y = merge_leaf (merge_leaf w y) x.
Proof.
  unfold merge_leaf. rewrite !set_of_sorted. f_equal.
  apply set_eq; intros z. rewrite !elem_of_union. tauto.
Qed.

Lemma merge_data_comm_acc (R A B : repertory) :
  merge_data (merge_data R A) B = merge_data (merge_data R B) A.
Proof.
  apply merge_items_comm_acc. intros w x y.
  apply merge_items_comm_acc. intros w' x' y'.
  apply merge_items_comm_acc, merge_leaf_comm_acc.
Qed.

Lemma merge_leaf_nil_id (l : list string) :
  NoDup l → Sorted String.le l → merge_leaf [] l = l.
Proof.
  intros Hnd Hs. unfold merge_leaf.
  apply (Sorted_unique String.le); [apply sorted_Sorted|done|].
  rewrite sorted_perm. unfold set_of. rewrite list_to_set_nil, (left_id_L ∅ _).
  by apply elements_list_to_set.
Qed.

Lemma merge_data_empty_id (A : repertory) :
  all_leaves (λ l, NoDup l ∧ Sorted String.le l) A → merge_data ∅ A = A.
Proof.
  intros HA. apply merge_items_empty_id. intros bp syms Hbp.
  apply merge_items_empty_id. intros sy subs Hsy.
  apply merge_items_empty_id. intros sub leaf Hsub.
  apply merge_leaf_nil_id; apply (HA bp sy sub leaf);
    unfold leaf_at; by rewrite Hbp, Hsy.
Qed.

(** Merging a parsed page into the empty accumulator gives the page
    itself. *)
Theorem merge_parsed_page_into_empty lines body_parts :
  merge_data ∅ (parse_lines lines body_parts) = parse_lines lines body_parts.
Proof.
  apply merge_data_empty_id. intros bp sy sub leaf H.
  by apply parse_lines_ok in H as (_ & ? & ?).
Qed.

Lemma leaf_at_merge_data_None (R A : repertory) bp sy sub :
  leaf_at A bp sy sub = None →
  leaf_at (merge_data R A) bp sy sub = leaf_at R bp sy sub.
Proof.
  unfold leaf_at, merge_data. rewrite merge_items_lookup.
  destruct (A !! bp) as [syms|]; [|done].
  unfold merge_symptoms. rewrite merge_items_lookup.
  destruct (syms !! sy) as [subs|].
  - unfold merge_sub_symptoms. rewrite merge_items_lookup.
    intros ->.
    destruct (R !! bp) as [rs|]; simpl; [|by rewrite lookup_empty].
    destruct (rs !! sy) as [rl|]; simpl; [done|by rewrite lookup_empty].
  - intros _. destruct (R !! bp) as [rs|]; simpl; [done|].
    by rewrite lookup_empty.
Qed.

(** The merged repertory has exactly the remedies of the accumulator and of
    the page, key by key: nothing is lost and nothing is made up. *)
Theorem merge_data_remedies (R A : repertory) bp sy sub r :
  has_remedy (merge_data R A) bp sy sub r ↔
  has_remedy R bp sy sub r ∨ has_remedy A bp sy sub r.
Proof.
  unfold has_remedy.
  destruct (leaf_at A bp sy sub) as [meds|] eqn:HA.
  - rewrite (leaf_at_merge_data R A bp sy sub meds HA). split.
    + intros (leaf & [= <-] & Hr).
      apply elem_of_sorted, elem_of_union in Hr as [Hr|Hr];
        apply elem_of_set_of in Hr; [|right; eauto].
      destruct (leaf_at R bp sy sub) as [l|]; simpl in Hr;
        [left; eauto|by apply elem_of_nil in Hr].
    + intros H. eexists. split; [done|].
      apply elem_of_sorted, elem_of_union.
      destruct H as [(l & -> & Hr)|(l & [= <-] & Hr)];
        [left|right]; by apply elem_of_set_of.
  - rewrite (leaf_at_merge_data_None R A bp sy sub HA). split; [auto|].
    intros [H|(l & ? & _)]; [done|congruence].
Qed.

Lemma foldl_comm_perm {A B} (f : A → B → A) (l l' : list B) :
  (∀ a x y, f (f a x) y = f (f a y) x) →
  l ≡ₚ l' → ∀ a, foldl f a l = foldl f a l'.
Proof.
  intros Hf. induction 1 as [|x l l' _ IH|x y l|l l' l'' _ IH1 _ IH2];
    intros a; simpl; [done|apply IH|by rewrite Hf|].
  by rewrite IH1.
Qed.

(** The scraped repertory does not depend on the order in which the pages
    are fetched and merged, whatever the accumulator holds at the start. *)
Theorem scrape_all_pages_any_order fetched fetched' (R : repertory) :
  fetched ≡ₚ fetched' →
  scrape_all_pages fetched R = scrape_all_pages fetched' R.
Proof.
  intros Hp. unfold scrape_all_pages.
  apply foldl_comm_perm; [|done]. intros a x y.
  destruct (x.1), (y.1); try done. apply merge_data_comm_acc.
Qed.

Lemma scrape_all_pages_any_order_witness :
  scrape_all_pages
    [(["HEAD"; "p. 1"; "PAIN  Bell."], {["HEAD"]});
     (["EYE"; "p. 2"; "PAIN  Acon."], {["EYE"]})] ∅
  = scrape_all_pages
      [(["EYE"; "p. 2"; "PAIN  Acon."], {["EYE"]});
       (["HEAD"; "p. 1"; "PAIN  Bell."], {["HEAD"]})] ∅.
Proof.
  apply (scrape_all_pages_any_order
           [(["HEAD"; "p. 1"; "PAIN  Bell."], {["HEAD"]});
            (["EYE"; "p. 2"; "PAIN  Acon."], {["EYE"]})]).
  apply Permutation_swap.
Defined.

End MergeMore.

(** ** Lines before the first body part *)

Section LeadingLines.

Import Py Scraper.

Lemma parse_line_no_body_part line st :
  current_body_part st = None →
  ∃ sym, parse_line line st = PState (data st) None sym.
Proof.
  intros Hbp. unfold parse_line. cbv zeta. rewrite Hbp.
  repeat case_match; simplify_eq; eauto.
  destruct st; simpl in *; subst; eauto.
Qed.

(** Without a current body part the current symptom does not matter. *)
Lemma parse_loop_symptom_irrelevant body_parts n : ∀ lines d s1 s2,
  (List.length lines ≤ n)%nat →
  data (parse_loop body_parts lines (PState d None s1))
  = data (parse_loop body_parts lines (PState d None s2)).
Proof.
  induction n as [|n IH]; intros [|line rest] d s1 s2 Hn; simpl in *;
    try done; try lia.
  destruct (bool_decide (line ∈ body_parts) && _); [by destruct rest|].
  destruct (parse_line_no_body_part line (PState d None s1) eq_refl)
    as [s1' ->].
  destruct (parse_line_no_body_part line (PState d None s2) eq_refl)
    as [s2' ->].
  simpl. apply IH. lia.
Qed.

Lemma parse_loop_skip_prefix body_parts pre rest : ∀ d s,
  (∀ line, line ∈ pre → line ∉ body_parts) →
  data (parse_loop body_parts (pre ++ rest) (PState d None s))
  = data (parse_loop body_parts rest (PState d None None)).
Proof.
  induction pre as [|line pre IH]; intros d s Hpre; simpl.
  - apply (parse_loop_symptom_irrelevant _ (List.length rest)). done.
  - rewrite bool_decide_false by (apply Hpre; left). simpl.
    destruct (parse_line_no_body_part line (PState d None s) eq_refl)
      as [s' ->].
    simpl. apply IH. intros x Hx. apply Hpre. by right.
Qed.

(** Lines that come before the first line naming a known body part
    contribute nothing: the page parses as if they were not there. *)
Theorem parse_lines_leading_lines_ignored pre rest body_parts :
  (∀ line, line ∈ pre → line ∉ body_parts) →
  parse_lines (pre ++ rest) body_parts = parse_lines rest body_parts.
Proof.
  intros Hpre. unfold parse_lines. f_equal.
  by apply parse_loop_skip_prefix.
Qed.

Lemma parse_lines_leading_lines_ignored_witness :
  parse_lines (["Kent's Repertory"; "NEXT  Acon."] ++
               ["HEAD"; "p. 109"; "PAIN  Bell."]) {["HEAD"]}
  = parse_lines ["HEAD"; "p. 109"; "PAIN  Bell."] {["HEAD"]}.
Proof.
  apply (parse_lines_leading_lines_ignored
           ["Kent's Repertory"; "NEXT  Acon."]).
  intros line Hin Hbp. apply elem_of_singleton in Hbp as ->.
  apply elem_of_cons in Hin as [Hin|Hin]; [discriminate|].
  apply elem_of_cons in Hin as [Hin|Hin]; [discriminate|].
  by apply elem_of_nil in Hin.
Defined.

End LeadingLines.

(** * Further properties of the processor *)

(** ** What [process_data_structure] builds *)

Section Processed.

Import Py Processor.

Lemma foldl_invariant {A B} (I : A → Prop) (f : A → B → A) (l : list B) :
  (∀ a x, x ∈ l → I a → I (f a x)) → ∀ a, I a → I (foldl f a l).
Proof.
  induction l as [|x l IH]; intros Hf a Ha; simpl; [done|].
  apply IH; [|apply Hf; [left|done]].
  intros a' y Hy. apply Hf. by right.
Qed.

Lemma all_processed_insert (P : string → string → list string → Prop)
    processed bp sy leaf :
  all_processed P processed → P bp sy leaf →
  all_processed P
    (<[bp := <[sy := leaf]> (default ∅ (processed !! bp))]> processed).
Proof.
  intros Hp Hnew bp' syms' sy' leaf'.
  destruct (decide (bp = bp')) as [<-|Hbp].
  - rewrite lookup_insert_eq. intros [= <-].
    destruct (decide (sy = sy')) as [<-|Hsy].
    + rewrite lookup_insert_eq. by intros [= <-].
    + rewrite lookup_insert_ne by done.
      destruct (processed !! bp) as [m|] eqn:E; simpl;
        [by apply Hp|by rewrite lookup_empty].
  - rewrite lookup_insert_ne by done. apply Hp.
Qed.

Lemma all_processed_reset (P : string → string → list string → Prop)
    (processed : gmap string (gmap string (list string))) bp :
  all_processed P processed → all_processed P (<[bp := ∅]> processed).
Proof.
  intros Hp bp' syms' sy' leaf'.
  destruct (decide (bp = bp')) as [<-|Hbp].
  - rewrite lookup_insert_eq. intros [= <-]. by rewrite lookup_empty.
  - rewrite lookup_insert_ne by done. apply Hp.
Qed.

Lemma process_symptom_from_raw raw bp symptoms_dict st entry :
  (bp, symptoms_dict) ∈ raw → entry ∈ symptoms_dict →
  all_processed (from_raw raw) st.1 →
  all_processed (from_raw raw) (process_symptom bp st entry).1.
Proof.
  intros Hbp Hentry Hst. destruct st as [processed self].
  destruct entry as [symptom rv]. unfold process_symptom.
  destruct (falsy rv); [done|].
  destruct (clean_remedies rv) as [|c cs] eqn:E; [done|]. simpl.
  apply all_processed_insert; [done|].
  exists symptoms_dict, symptom, rv. by rewrite E.
Qed.

Lemma process_body_part_from_raw raw st entry :
  entry ∈ raw →
  all_processed (from_raw raw) st.1 →
  all_processed (from_raw raw) (process_body_part st entry).1.
Proof.
  intros Hentry Hst. destruct entry as [bp symptoms_dict].
  unfold process_body_part. destruct symptoms_dict as [|e es] eqn:E; [done|].
  rewrite <- E in *.
  apply (foldl_invariant (λ st, all_processed (from_raw raw) st.1)).
  - intros st' x Hx Hst'. by eapply process_symptom_from_raw.
  - simpl. by apply all_processed_reset.
Qed.

Lemma process_data_structure_from_raw raw self :
  all_processed (from_raw raw) (process_data_structure raw self).1.
Proof.
  unfold process_data_structure.
  apply (foldl_invariant (λ st, all_processed (from_raw raw) st.1)).
  - intros st x Hx Hst. by apply process_body_part_from_raw.
  - intros bp syms sy leaf. simpl. by rewrite lookup_empty.
Qed.

(** Every entry of the processed data comes from the raw data: its body
    part is a raw body part, its symptom is the normalized name of one of
    that body part's raw symptoms, and its remedies are the cleaned remedies
    of that symptom. *)
Theorem processed_entries_from_raw raw self :
  all_processed (from_raw raw) (process_data_structure raw self).1.
Proof. apply process_data_structure_from_raw. Qed.

Lemma normalize_symptom_name_fixed s :
  normalize_symptom_name (normalize_symptom_name s) = normalize_symptom_name s.
Proof.
  destruct (first_root normalizations (clean_chars (chars_of s)))
    as [v|] eqn:E.
  - assert (normalize_symptom_name s = v) as ->
      by (unfold normalize_symptom_name; by rewrite E).
    apply normalize_root. by eapply first_root_elem_of.
  - assert (normalize_symptom_name s = str_of (clean_chars (chars_of s))) as ->
      by (unfold normalize_symptom_name; by rewrite E).
    unfold normalize_symptom_name.
    by rewrite chars_of_str_of, clean_chars_idemp, E.
Qed.

(** Every symptom key of the processed data is in normalized form:
    normalizing it again gives the same key. *)
Theorem processed_symptoms_normalized raw self :
  all_processed (λ _ sy _, normalize_symptom_name sy = sy)
                (process_data_structure raw self).1.
Proof.
  intros bp syms sy leaf Hbp Hsy.
  destruct (process_data_structure_from_raw raw self bp syms sy leaf Hbp Hsy)
    as (_ & symptom & _ & _ & _ & -> & _).
  apply normalize_symptom_name_fixed.
Qed.

Lemma clean_remedies_stripped rv :
  Forall (λ r, r ≠ "" ∧ strip r = r) (clean_remedies rv).
Proof.
  unfold clean_remedies. apply Forall_forall. intros r Hr.
  apply list_elem_of_bind in Hr as (i & Hr & _).
  destruct i as [s|]; simpl in Hr; [|by apply elem_of_nil in Hr].
  destruct (truthy (strip s)) eqn:E; [|by apply elem_of_nil in Hr].
  apply list_elem_of_singleton in Hr as ->. split.
  - by apply truthy_true.
  - apply on_chars_strip_fixed. auto.
Qed.

(** No symptom of the processed data has an empty remedy list, and every
    remedy is a non-empty string without whitespace at its ends. *)
Theorem processed_remedies_clean raw self :
  all_processed (λ _ _ leaf,
                   leaf ≠ [] ∧ Forall (λ r, r ≠ "" ∧ strip r = r) leaf)
                (process_data_structure raw self).1.
Proof.
  intros bp syms sy leaf Hbp Hsy.
  destruct (process_data_structure_from_raw raw self bp syms sy leaf Hbp Hsy)
    as (_ & _ & rv & _ & _ & _ & -> & Hne).
  split; [done|apply clean_remedies_stripped].
Qed.

End Processed.

(** ** The indices *)

Section Indices.

Import Py Processor.










(** [get_remedy_details] never touches [processed_data] or [symptom_index],
    leaves the index entry of every other remedy alone, gives the looked-up
    remedy an entry (the empty set when it had none), and a second lookup of
    the same remedy returns the same details and changes nothing. *)
Theorem get_remedy_details_frame remedy self :
  let self' := (get_remedy_details remedy self).2 in
  processed_data self' = processed_data self ∧
  symptom_index self' = symptom_index self ∧
  (∀ k, k ≠ remedy → remedy_index self' !! k = remedy_index self !! k) ∧
  remedy_index self' !! remedy
    = Some (default ∅ (remedy_index self !! remedy)) ∧
  get_remedy_details remedy self'
    = ((get_remedy_details remedy self).1, self').
Proof.
  unfold get_remedy_details, defaultdict_getitem.
  destruct (remedy_index self !! remedy) as [s|] eqn:E; simpl.
  - rewrite E. repeat split; try done.
  - rewrite lookup_insert_eq. repeat split; try done.
    intros k Hk. by rewrite lookup_insert_ne.
Qed.



End Indices.

(** ** More on the query engine *)

Section QueryMore.

Import Py Processor.

(** The result is built from the credits of the first pair of loops. *)
Lemma find_common_remedies_credits self bps syms :
  find_common_remedies self bps syms =
  foldl (λ result '(remedy, sc),
           od_set remedy
             (make_entry (apply_credits (Tally [] []) (credits self bps syms))
                         remedy sc) result) []
        (sort_by_score
           (remedy_scores
              (apply_credits (Tally [] []) (credits self bps syms)))).
Proof.
  unfold find_common_remedies.
  assert (foldl (cross_symptom self bps)
            (foldl (score_body_part self syms) (Tally [] []) bps) syms
          = apply_credits (Tally [] []) (credits self bps syms)) as E.
  { rewrite first_loops_credits.
    apply (cross_loops_fixed self bps syms); [|done].
    intros loc r Hin. by apply apply_credits_records. }
  rewrite E. by destruct bps, syms.
Qed.

(** The result depends on [self] through [processed_data] only: the two
    indices, which the second pair of loops consults, have no influence. *)
Theorem find_common_remedies_ignores_indices processed ri si ri' si'
    (bps syms : list string) :
  find_common_remedies (Processor processed ri si) bps syms
  = find_common_remedies (Processor processed ri' si') bps syms.
Proof. by rewrite !find_common_remedies_credits. Qed.

Lemma credits_nil_l self syms : credits self [] syms = [].
Proof. done. Qed.

Lemma credits_nil_r self bps : credits self bps [] = [].
Proof.
  unfold credits. induction bps as [|bp bps IH]; [done|].
  rewrite bind_cons, IH. unfold credits_body_part.
  by destruct (processed_data self !! bp).
Qed.

(** A query with no body part, or with no symptom, has an empty result. *)
Theorem find_common_remedies_empty_query self (bps syms : list string) :
  find_common_remedies self [] syms = [] ∧
  find_common_remedies self bps [] = [].
Proof.
  by rewrite !find_common_remedies_credits, credits_nil_l, credits_nil_r.
Qed.

Lemma od_set_fresh {V} k (v : V) (d : list (string * V)) :
  k ∉ d.*1 → od_set k v d = (d ++ [(k, v)])%list.
Proof.
  induction d as [|[k0 v0] d IH]; simpl; [done|].
  intros [Hne Hd]%not_elem_of_cons. simpl in Hne.
  rewrite bool_decide_false by done. by rewrite IH.
Qed.

Lemma build_fmap {V} (g : string → nat → V) (l : list (string * nat)) :
  NoDup l.*1 →
  foldl (λ result '(remedy, sc), od_set remedy (g remedy sc) result) [] l
  = (λ kv, (kv.1, g kv.1 kv.2)) <$> l.
Proof.
  induction l as [|[k sc] l IH] using rev_ind; [done|].
  rewrite fmap_app. intros [Hl [Hk _]]%NoDup_app.
  rewrite foldl_app, fmap_app, IH by done. simpl.
  apply od_set_fresh. rewrite <- list_fmap_compose.
  intros Hin. apply (Hk k); [|left].
  apply list_elem_of_fmap in Hin as ([k' sc'] & -> & Hin). simpl.
  apply list_elem_of_fmap. by exists (k', sc').
Qed.

Lemma fmap_keys {V W} (h : string * V → W) (l : list (string * V)) :
  ((λ kv, (kv.1, h kv)) <$> l).*1 = l.*1.
Proof. induction l as [|x l IH]; [done|]. rewrite !fmap_cons, IH. done. Qed.

Lemma insert_by_score_Sorted x l :
  Sorted (λ a b : string * nat, (b.2 ≤ a.2)%nat) l →
  Sorted (λ a b : string * nat, (b.2 ≤ a.2)%nat) (insert_by_score x l).
Proof.
  induction 1 as [|y l Hl IH Hhd]; simpl; [by repeat constructor|].
  destruct (x.2 <? y.2)%nat eqn:E.
  - apply Nat.ltb_lt in E. constructor; [done|].
    destruct l as [|z l]; simpl in *.
    + constructor. lia.
    + destruct (x.2 <? z.2)%nat; constructor; [by inversion Hhd|lia].
  - apply Nat.ltb_ge in E. constructor; [by constructor|by constructor].
Qed.

Lemma sort_by_score_Sorted l :
  Sorted (λ a b : string * nat, (b.2 ≤ a.2)%nat) (sort_by_score l).
Proof.
  induction l as [|x l IH]; simpl; [constructor|].
  by apply insert_by_score_Sorted.
Qed.

Lemma apply_credits_ok cs : tally_ok (apply_credits (Tally [] []) cs).
Proof.
  unfold apply_credits. apply foldl_ok; [|apply tally_empty_ok].
  intros t c. apply credit_ok.
Qed.

(** The result lists each remedy once, and a remedy never comes before one
    with a higher score. *)
Theorem find_common_remedies_ranked self (bps syms : list string) :
  NoDup (find_common_remedies self bps syms).*1 ∧
  StronglySorted (λ a b : string * entry, (score b.2 ≤ score a.2)%nat)
                 (find_common_remedies self bps syms).
Proof.
  rewrite find_common_remedies_credits.
  set (t := apply_credits (Tally [] []) (credits self bps syms)).
  destruct (apply_credits_ok (credits self bps syms)) as [Hnd _]. fold t in Hnd.
  assert (NoDup (sort_by_score (remedy_scores t)).*1) as Hnd'
    by (by rewrite sort_by_score_perm).
  rewrite build_fmap by done. split.
  - by rewrite (fmap_keys (λ kv, make_entry t kv.1 kv.2)).
  - apply Sorted_StronglySorted; [intros a b c; simpl; lia|].
    apply (Sorted_fmap _ (λ a b : string * nat, (b.2 ≤ a.2)%nat));
      [done|apply sort_by_score_Sorted].
Qed.

Lemma elem_of_credits_inv self bps syms loc r :
  (loc, r) ∈ credits self bps syms →
  ∃ bp sy, bp ∈ bps ∧ sy ∈ syms ∧ loc = location bp sy ∧
           leaf_has self r (bp, sy) = true.
Proof.
  unfold credits. intros (bp & Hin & Hbp)%list_elem_of_bind.
  unfold credits_body_part in Hin.
  destruct (processed_data self !! bp) as [m|] eqn:E;
    [|by apply elem_of_nil in Hin].
  apply list_elem_of_bind in Hin as (sy & Hin & Hsy).
  unfold credits_symptom in Hin. rewrite E in Hin. simpl in Hin.
  destruct (m !! sy) as [leaf|] eqn:El; [|by apply elem_of_nil in Hin].
  apply list_elem_of_fmap in Hin as (r' & [= -> ->] & Hr).
  exists bp, sy. repeat split; try done.
  unfold leaf_has. simpl. rewrite E. simpl. rewrite El.
  by apply bool_decide_eq_true.
Qed.

Lemma leaf_has_credits self bps syms bp sy r :
  bp ∈ bps → sy ∈ syms → leaf_has self r (bp, sy) = true →
  (location bp sy, r) ∈ credits self bps syms.
Proof.
  intros Hbp Hsy. unfold leaf_has. simpl.
  destruct (processed_data self !! bp) as [m|] eqn:E; [|done]. simpl.
  destruct (m !! sy) as [leaf|] eqn:El; [|done].
  intros Hr%bool_decide_eq_true.
  apply (elem_of_credits self bps syms bp sy leaf r); try done.
  by rewrite E.
Qed.

Lemma credit_count_pos r (cs : list (string * string)) :
  credit_count r cs ≠ 0%nat ↔ ∃ loc, (loc, r) ∈ cs.
Proof.
  unfold credit_count. split.
  - intros H. destruct (filter (λ c, c.2 = r) cs) as [|[loc r'] l] eqn:E;
      [done|].
    assert ((loc, r') ∈ filter (λ c, c.2 = r) cs) as Hin
      by (rewrite E; left).
    apply list_elem_of_filter in Hin as [Hr Hin]. simpl in Hr. subst.
    eauto.
  - intros [loc Hin] H. apply length_zero_iff_nil in H.
    assert ((loc, r) ∈ filter (λ c, c.2 = r) cs) as Hin'
      by (by apply list_elem_of_filter).
    rewrite H in Hin'. by apply elem_of_nil in Hin'.
Qed.

(** The remedies of the result are exactly the remedies that occur in the
    leaf of some queried (body part, symptom) pair. *)
Theorem find_common_remedies_remedies self (bps syms : list string) r :
  is_Some (od_get r (find_common_remedies self bps syms)) ↔
  ∃ bp sy, bp ∈ bps ∧ sy ∈ syms ∧ leaf_has self r (bp, sy) = true.
Proof.
  rewrite <- (fmap_is_Some score).
  change (score <$> od_get r (find_common_remedies self bps syms))
    with (score_of r (find_common_remedies self bps syms)).
  rewrite score_of_find.
  pose proof (credit_count_pos r (credits self bps syms)) as Hpos.
  destruct (credit_count r (credits self bps syms)) as [|n].
  - split; [by intros [? ?]|].
    intros (bp & sy & Hbp & Hsy & Hl). exfalso.
    assert (∃ loc, (loc, r) ∈ credits self bps syms) as Hex
      by (eexists; by apply leaf_has_credits).
    apply Hpos in Hex. done.
  - split; [|by eauto]. intros _.
    destruct (proj1 Hpos) as [loc Hin]; [done|].
    apply elem_of_credits_inv in Hin as (bp & sy & ? & ? & _ & ?). eauto.
Qed.

Lemma credits_perm self (bps bps' syms syms' : list string) :
  bps ≡ₚ bps' → syms ≡ₚ syms' →
  credits self bps syms ≡ₚ credits self bps' syms'.
Proof.
  intros Hb Hs. unfold credits. rewrite <- Hb. clear Hb bps'.
  induction bps as [|bp bps IH]; [done|].
  rewrite !bind_cons. apply Permutation_app; [|done].
  unfold credits_body_part. destruct (processed_data self !! bp); [|done].
  by rewrite Hs.
Qed.

(** The score of a remedy does not depend on the order in which the body
    parts and the symptoms of the query are listed. *)
Theorem find_common_remedies_order self (bps bps' syms syms' : list string) r :
  bps ≡ₚ bps' → syms ≡ₚ syms' →
  score_of r (find_common_remedies self bps syms)
  = score_of r (find_common_remedies self bps' syms').
Proof.
  intros Hb Hs. rewrite !score_of_find.
  assert (credit_count r (credits self bps syms)
          = credit_count r (credits self bps' syms')) as ->; [|done].
  unfold credit_count. by rewrite (credits_perm self bps bps' syms syms').
Qed.

Lemma find_common_remedies_order_witness :
  score_of "Bell"
    (find_common_remedies
       (Processor {["HEAD" := {["pain" := ["Bell"]; "fever" := ["Bell"]]}]} ∅ ∅)
       ["HEAD"] ["pain"; "fever"])
  = score_of "Bell"
      (find_common_remedies
         (Processor {["HEAD" := {["pain" := ["Bell"]; "fever" := ["Bell"]]}]} ∅ ∅)
         ["HEAD"] ["fever"; "pain"]).
Proof.
  apply (find_common_remedies_order
           (Processor {["HEAD" := {["pain" := ["Bell"]; "fever" := ["Bell"]]}]} ∅ ∅)
           ["HEAD"] ["HEAD"] ["pain"; "fever"] ["fever"; "pain"] "Bell").
  - reflexivity.
  - apply Permutation_swap.
Defined.

End QueryMore.

(** ** Normalized names and categories *)

Section Names.

Import Py Processor.

Lemma roots_clean :
  Forall (λ v, lower v = v ∧ on_chars trim_punct v = v) normalizations.*2.
Proof. apply (bool_decide_unpack _). vm_compute. exact I. Qed.

(** A normalized symptom name is in lower case and neither starts nor ends
    with whitespace or one of the characters [-:,.]. *)
Theorem normalized_names_clean s :
  lower (normalize_symptom_name s) = normalize_symptom_name s ∧
  on_chars trim_punct (normalize_symptom_name s) = normalize_symptom_name s.
Proof.
  unfold normalize_symptom_name.
  destruct (first_root normalizations (clean_chars (chars_of s)))
    as [v|] eqn:E.
  - apply first_root_elem_of in E.
    by apply (proj1 (Forall_forall _ _) roots_clean).
  - unfold lower, on_chars. rewrite !chars_of_str_of. split; f_equal.
    + apply lower_chars_fixed, clean_chars_lower.
    + unfold clean_chars, trim_punct.
      apply (strip_by_fixed is_punct is_punct). auto.
Qed.

(** [sub in s], as a decomposition of [s]. *)
Lemma starts_with_spec (pre l : list ascii) :
  starts_with pre l = true ↔ ∃ post, l = (pre ++ post)%list.
Proof.
  revert l. induction pre as [|a pre IH]; intros l; simpl.
  - split; [eauto|done].
  - destruct l as [|b l]; [split; [done|by intros [? ?]]|].
    rewrite andb_true_iff, bool_decide_eq_true, IH. split.
    + intros [-> [post ->]]. eauto.
    + intros [post [= -> ->]]. eauto.
Qed.

Lemma contains_spec (sub l : list ascii) :
  contains sub l = true ↔ ∃ pre post, l = (pre ++ sub ++ post)%list.
Proof.
  induction l as [|b l IH]; simpl.
  - rewrite orb_false_r, starts_with_spec. split.
    + intros [post ->]. by exists [], post.
    + intros (pre & post & H). symmetry in H.
      apply app_eq_nil in H as [-> H]. apply app_eq_nil in H as [-> ->].
      by exists [].
  - rewrite orb_true_iff, starts_with_spec, IH. split.
    + intros [[post ->]|(pre & post & ->)].
      * by exists [], post.
      * by exists (b :: pre), post.
    + intros ([|c pre] & post & H); simpl in H.
      * left. eauto.
      * injection H as -> ->. right. eauto.
Qed.

Lemma contains_trans (a b c : list ascii) :
  contains a b = true → contains b c = true → contains a c = true.
Proof.
  rewrite !contains_spec. intros (p1 & q1 & ->) (p2 & q2 & ->).
  exists (p2 ++ p1)%list, (q1 ++ q2)%list. by rewrite <- !app_assoc.
Qed.

Lemma contains_lower (a b : list ascii) :
  contains a b = true → contains (lower_chars a) (lower_chars b) = true.
Proof.
  rewrite !contains_spec. intros (p & q & ->).
  exists (lower_chars p), (lower_chars q).
  unfold lower_chars. by rewrite !fmap_app.
Qed.

Lemma any_word_in_mono words s s' :
  contains (chars_of s) (chars_of s') = true →
  any_word_in words s = true → any_word_in words s' = true.
Proof.
  intros Hs. unfold any_word_in. rewrite !existsb_exists.
  intros (w & Hw & Hc). exists w. split; [done|].
  eapply contains_trans; [exact Hc|].
  unfold lower. rewrite !chars_of_on_chars. by apply contains_lower.
Qed.

End Names.

Section Categories.

Import Py Processor.

(** The result is the default tag alone, or a non-empty selection of the
    other tags in the order in which they are tested; in particular it is
    never empty and has no tag twice. *)
Theorem extract_symptom_categories_shape symptom :
  extract_symptom_categories symptom ≠ [] ∧
  NoDup (extract_symptom_categories symptom) ∧
  (extract_symptom_categories symptom = ["general"] ∨
   sublist (extract_symptom_categories symptom) category_tags).
Proof.
  assert (NoDup category_tags) as Htags
    by (apply (bool_decide_unpack _); vm_compute; exact I).
  assert (extract_symptom_categories symptom ≠ [] ∧
          (extract_symptom_categories symptom = ["general"] ∨
           sublist (extract_symptom_categories symptom) category_tags))
    as [Hne [->|Hsub]].
  { unfold extract_symptom_categories, category_tags.
    repeat match goal with
           | |- context [any_word_in ?w ?s] => destruct (any_word_in w s)
           end;
      simpl; (split; [discriminate|]);
      first [ by left
            | right;
              repeat first [ apply sublist_skip | apply sublist_cons
                           | apply sublist_nil ] ]. }
  - split; [done|]. split; [apply NoDup_singleton|by left].
  - split; [done|]. split; [by eapply sublist_NoDup|by right].
Qed.

Lemma elem_of_append_if (b : bool) (l : list string) t c :
  c ∈ (if b then (l ++ [t])%list else l) ↔ c ∈ l ∨ (b = true ∧ c = t).
Proof.
  destruct b.
  - rewrite elem_of_app, list_elem_of_singleton. naive_solver.
  - naive_solver.
Qed.

Lemma elem_of_default_general (l : list string) c :
  c ≠ "general" →
  c ∈ match l with [] => ["general"] | _ :: _ => l end ↔ c ∈ l.
Proof.
  intros Hc. destruct l; [|done].
  rewrite list_elem_of_singleton. split; [done|by intros ?%elem_of_nil].
Qed.

(** A tag other than the default one is in the result exactly when one of
    the key words of that tag occurs in the lower-cased text. *)
Lemma extract_symptom_categories_elem symptom c :
  c ≠ "general" →
  c ∈ extract_symptom_categories symptom ↔
  ∃ words,
    (words, c) ∈
      [(["pain"; "aching"; "sore"; "hurt"], "pain");
       (["burning"; "burn"; "hot"], "burning");
       (["inflammation"; "swelling"; "inflamed"], "inflammation");
       (["numbness"; "tingling"; "weakness"], "neurological");
       (["anxiety"; "fear"; "worry"; "depression"; "sad"], "mental");
       (["nausea"; "vomiting"; "diarrhea"; "constipation"], "digestive");
       (["cough"; "congestion"; "breathing"], "respiratory");
       (["itching"; "rash"; "eruption"; "dry"], "skin")] ∧
    any_word_in words symptom = true.
Proof.
  intros Hc. unfold extract_symptom_categories. cbv zeta.
  rewrite elem_of_default_general by done.
  rewrite !elem_of_append_if, elem_of_nil.
  split.
  - intros H. repeat destruct H as [H|H]; [done|..];
      destruct H as [Hw ->]; eexists; (split; [|exact Hw]);
      repeat first [apply list_elem_of_here | apply list_elem_of_further].
  - intros (words & Hin & Hw).
    repeat (apply elem_of_cons in Hin as [[= -> ->]|Hin]; [tauto|]).
    by apply elem_of_nil in Hin.
Qed.

(** Text that contains a symptom text gets every tag of it other than the
    default one: adding words never removes a category. *)
Theorem extract_symptom_categories_mono symptom symptom' c :
  contains (chars_of symptom) (chars_of symptom') = true →
  c ∈ extract_symptom_categories symptom → c ≠ "general" →
  c ∈ extract_symptom_categories symptom'.
Proof.
  intros Hs Hc Hne.
  apply extract_symptom_categories_elem in Hc as (words & Hin & Hw); [|done].
  apply extract_symptom_categories_elem; [done|].
  exists words. split; [done|]. by eapply any_word_in_mono.
Qed.

Lemma extract_symptom_categories_mono_witness :
  "burning" ∈ extract_symptom_categories "Burning pain in the head".
Proof.
  apply (extract_symptom_categories_mono "Burning" "Burning pain in the head").
  - vm_compute. reflexivity.
  - vm_compute. apply list_elem_of_here.
  - discriminate.
Defined.

End Categories.

(** ** Location strings *)

Section Locations.

Import Py Processor.

Lemma chars_of_append (s1 s2 : string) :
  chars_of (s1 ++ s2) = (chars_of s1 ++ chars_of s2)%list.
Proof.
  unfold chars_of. induction s1 as [|a s1 IH]; simpl; [done|]. by rewrite IH.
Qed.

Lemma split_on_no_sep p (l : list ascii) : ∀ cur,
  Forall (λ a, p a = false) l →
  split_on p cur l = [(reverse cur ++ l)%list].
Proof.
  induction l as [|a l IH]; intros cur Hl; simpl.
  - by rewrite app_nil_r.
  - apply Forall_cons in Hl as [Ha Hl]. rewrite Ha, IH by done.
    by rewrite reverse_cons, <- app_assoc.
Qed.

Lemma split_on_sep p (l1 l2 : list ascii) d : ∀ cur,
  Forall (λ a, p a = false) l1 → p d = true →
  split_on p cur (l1 ++ d :: l2)
  = (reverse cur ++ l1)%list :: split_on p [] l2.
Proof.
  induction l1 as [|a l1 IH]; intros cur Hl Hd; simpl.
  - by rewrite Hd, app_nil_r.
  - apply Forall_cons in Hl as [Ha Hl]. rewrite Ha, IH by done.
    by rewrite reverse_cons, <- app_assoc.
Qed.

Lemma has_colon_false s :
  Scraper.has_colon s = false →
  Forall (λ a, bool_decide (a = ":"%char) = false) (chars_of s).
Proof.
  unfold Scraper.has_colon. intros H. apply Forall_forall. intros a Ha.
  apply not_true_is_false. intros Hc.
  assert (existsb Scraper.is_colon (chars_of s) = true) as Hex; [|congruence].
  apply existsb_exists. exists a. split; [by apply list_elem_of_In|done].
Qed.

(** The location string of a body part and a symptom that contain no colon
    splits back into the body part and the symptom. *)
Theorem location_split bp sy :
  Scraper.has_colon bp = false → Scraper.has_colon sy = false →
  split_colon 0 (location bp sy) = bp ∧ split_colon 1 (location bp sy) = sy.
Proof.
  intros Hbp%has_colon_false Hsy%has_colon_false.
  unfold split_colon, location. rewrite !chars_of_append.
  change (chars_of ":") with [":"%char]. simpl.
  rewrite (split_on_sep _ (chars_of bp) (chars_of sy) ":"%char) by done.
  rewrite split_on_no_sep by done. simpl.
  by rewrite !str_of_chars_of.
Qed.

Lemma location_split_witness :
  split_colon 0 (location "HEAD" "pain") = "HEAD" ∧
  split_colon 1 (location "HEAD" "pain") = "pain".
Proof. apply (location_split "HEAD" "pain"); reflexivity. Defined.

End Locations.

(** ** The body parts of the processed data *)

Section ProcessedKeys.

Import Py Processor.

Lemma process_symptom_dom bp st entry :
  bp ∈ dom st.1 → dom (process_symptom bp st entry).1 = dom st.1.
Proof.
  intros Hbp. destruct st as [processed self], entry as [symptom rv].
  unfold process_symptom. destruct (falsy rv); [done|].
  destruct (clean_remedies rv); [done|]. simpl in *.
  rewrite dom_insert_L. set_solver.
Qed.

Lemma process_body_part_dom st bp symptoms_dict :
  dom (process_body_part st (bp, symptoms_dict)).1 =
  match symptoms_dict with
  | [] => dom st.1
  | _ :: _ => {[bp]} ∪ dom st.1
  end.
Proof.
  unfold process_body_part. destruct symptoms_dict as [|e es] eqn:E; [done|].
  rewrite <- E.
  assert (∀ l st', bp ∈ dom st'.1 →
            dom (foldl (process_symptom bp) st' l).1 = dom st'.1) as Hfold.
  { induction l as [|x l IH]; intros st' Hin; simpl; [done|].
    rewrite IH by (by rewrite process_symptom_dom).
    by apply process_symptom_dom. }
  rewrite Hfold; simpl; rewrite dom_insert_L; [done|set_solver].
Qed.

Lemma process_data_structure_dom raw : ∀ st bp,
  bp ∈ dom (foldl process_body_part st raw).1 ↔
  bp ∈ dom st.1 ∨ ∃ symptoms_dict, (bp, symptoms_dict) ∈ raw ∧ symptoms_dict ≠ [].
Proof.
  induction raw as [|[bp0 sd] raw IH]; intros st bp.
  - simpl. split; [auto|]. intros [?|(? & ?%elem_of_nil & _)]; done.
  - change (foldl process_body_part st ((bp0, sd) :: raw))
      with (foldl process_body_part (process_body_part st (bp0, sd)) raw).
    rewrite IH, process_body_part_dom. split.
    + intros [H|(sd' & Hin & Hne)].
      * destruct sd as [|e es]; [by left|].
        apply elem_of_union in H as [->%elem_of_singleton|H]; [|by left].
        right. exists (e :: es). split; [left|done].
      * right. exists sd'. split; [by right|done].
    + intros [H|(sd' & Hin & Hne)].
      * left. destruct sd; [done|]. by apply elem_of_union_r.
      * apply elem_of_cons in Hin as [[= ? ?]|Hin]; subst.
        -- left. destruct sd; [done|]. apply elem_of_union_l.
           by apply elem_of_singleton.
        -- right. eauto.
Qed.

(** The body-part keys of the processed data are exactly the raw body parts
    whose symptom dict is not empty, whether or not any symptom is kept. *)
Theorem processed_body_parts raw self bp :
  bp ∈ dom (process_data_structure raw self).1 ↔
  ∃ symptoms_dict, (bp, symptoms_dict) ∈ raw ∧ symptoms_dict ≠ [].
Proof.
  unfold process_data_structure. rewrite process_data_structure_dom. simpl.
  rewrite dom_empty_L. split; [|auto].
  intros [H|H]; [by apply not_elem_of_empty in H|done].
Qed.

End ProcessedKeys.

(** ** Parsing a page section by section *)

Section Sections.

Import Py Scraper.

Lemma append_items_lookup {V} (g : V → V → V) (m1 m2 : gmap string V) k :
  append_items g m1 m2 !! k =
  match m1 !! k, m2 !! k with
  | Some a, Some b => Some (g a b)
  | Some a, None => Some a
  | None, o => o
  end.
Proof.
  unfold append_items. rewrite lookup_union_with.
  by destruct (m1 !! k), (m2 !! k).
Qed.

Lemma append_items_empty_r {V} (g : V → V → V) (m : gmap string V) :
  append_items g m ∅ = m.
Proof.
  apply map_eq; intros k. rewrite append_items_lookup, lookup_empty.
  by destruct (m !! k).
Qed.

Lemma append_items_empty_l {V} (g : V → V → V) (m : gmap string V) :
  append_items g ∅ m = m.
Proof.
  apply map_eq; intros k. by rewrite append_items_lookup, lookup_empty.
Qed.

Lemma upsert_append {V} (g : V → V → V) (dflt : V) k (u : V → V)
    (m1 m : gmap string V) :
  (∀ a, g a dflt = a) → (∀ a b, u (g a b) = g a (u b)) →
  upsert dflt k u (append_items g m1 m)
  = append_items g m1 (upsert dflt k u m).
Proof.
  intros Hg Hu. apply map_eq; intros k'. unfold upsert.
  destruct (decide (k = k')) as [<-|Hne].
  - rewrite lookup_insert_eq, !append_items_lookup, lookup_insert_eq.
    destruct (m1 !! k) as [a|], (m !! k) as [b|]; simpl; try done.
    + by rewrite Hu.
    + by rewrite <- Hu, Hg.
  - rewrite lookup_insert_ne, !append_items_lookup, lookup_insert_ne by done.
    done.
Qed.

Lemma store_upsert bp sy sub meds (d : repertory) :
  store bp sy sub meds d
  = upsert ∅ bp (upsert ∅ sy (upsert [] sub (λ l, (l ++ meds)%list))) d.
Proof. done. Qed.

Lemma store_append bp sy sub meds (d1 d : repertory) :
  store bp sy sub meds (append_data d1 d)
  = append_data d1 (store bp sy sub meds d).
Proof.
  rewrite !store_upsert. unfold append_data.
  apply upsert_append; [apply append_items_empty_r|]. intros a b.
  apply upsert_append; [apply append_items_empty_r|]. intros a' b'.
  apply upsert_append; [apply app_nil_r|]. intros l1 l2.
  by rewrite app_assoc.
Qed.

Lemma parse_line_append d1 line d bp sy :
  parse_line line (PState (append_data d1 d) bp sy) =
  PState (append_data d1 (data (parse_line line (PState d bp sy))))
         (current_body_part (parse_line line (PState d bp sy)))
         (current_symptom (parse_line line (PState d bp sy))).
Proof.
  unfold parse_line. cbv zeta. simpl.
  repeat case_match; simplify_eq; simpl; try done; by rewrite store_append.
Qed.

Lemma parse_loop_append body_parts d1 n : ∀ lines d bp sy,
  (List.length lines ≤ n)%nat →
  parse_loop body_parts lines (PState (append_data d1 d) bp sy) =
  PState
    (append_data d1 (data (parse_loop body_parts lines (PState d bp sy))))
    (current_body_part (parse_loop body_parts lines (PState d bp sy)))
    (current_symptom (parse_loop body_parts lines (PState d bp sy))).
Proof.
  induction n as [|n IH]; intros [|line rest] d bp sy Hn; simpl in *;
    try done; try lia.
  destruct (bool_decide (line ∈ body_parts) && _).
  - destruct rest as [|next rest']; [done|]. apply IH. simpl in *. lia.
  - rewrite parse_line_append.
    destruct (parse_line line (PState d bp sy)) as [d' bp' sy'].
    simpl. apply IH. lia.
Qed.

(** The loop can be cut in front of a line that is not a page number. *)
Lemma parse_loop_app body_parts l2 n : ∀ l1 st,
  (List.length l1 ≤ n)%nat →
  match l2 with
  | hdr :: _ => is_page_number (lower hdr) = false
  | [] => True
  end →
  parse_loop body_parts (l1 ++ l2) st
  = parse_loop body_parts l2 (parse_loop body_parts l1 st).
Proof.
  induction n as [|n IH]; intros [|line rest] st Hn Hl2; simpl in *;
    try done; try lia.
  destruct rest as [|next rest']; simpl.
  - destruct l2 as [|hdr l2'].
    + simpl. by rewrite andb_false_r.
    + rewrite Hl2, !andb_false_r. done.
  - destruct (bool_decide (line ∈ body_parts) && _).
    + apply IH; [simpl in *; lia|done].
    + apply (IH (next :: rest')); [simpl in *; lia|done].
Qed.

Lemma clean_append_items {V W} (h : V → W) (g : V → V → V)
    (dflt : W) (step : W → W → W) (m1 m2 : gmap string V) :
  (∀ a b, h (g a b) = step (h a) (h b)) →
  (∀ b, step dflt (h b) = h b) →
  h <$> append_items g m1 m2 = merge_items dflt step (h <$> m2) (h <$> m1).
Proof.
  intros Hh Hd. apply map_eq; intros k.
  rewrite merge_items_lookup, !lookup_fmap, append_items_lookup.
  destruct (m1 !! k) as [a|], (m2 !! k) as [b|]; simpl; try done.
  - by rewrite Hh.
  - by rewrite Hd.
Qed.

Lemma clean_leaf_app (l1 l2 : list string) :
  clean_leaf (l1 ++ l2) = merge_leaf (clean_leaf l1) (clean_leaf l2).
Proof.
  unfold clean_leaf, merge_leaf. rewrite !set_of_sorted. f_equal.
  apply set_eq; intros x.
  by rewrite elem_of_union, !elem_of_set_of, elem_of_app.
Qed.

Lemma merge_leaf_nil_clean (l : list string) :
  merge_leaf [] (clean_leaf l) = clean_leaf l.
Proof.
  unfold clean_leaf, merge_leaf. rewrite set_of_sorted. f_equal.
  apply set_eq; intros x. rewrite elem_of_union, elem_of_set_of.
  split; [intros [?%elem_of_nil|?]; done|auto].
Qed.

Lemma clean_duplicates_append (d1 d2 : repertory) :
  clean_duplicates (append_data d1 d2)
  = merge_data (clean_duplicates d1) (clean_duplicates d2).
Proof.
  unfold clean_duplicates, append_data, merge_data, merge_symptoms,
    merge_sub_symptoms.
  assert (∀ s1 s2 : leaves,
    clean_leaf <$> append_items (λ l1 l2, (l1 ++ l2)%list) s1 s2
    = merge_items [] merge_leaf (clean_leaf <$> s2) (clean_leaf <$> s1)) as H1.
  { intros. apply clean_append_items;
      [apply clean_leaf_app|apply merge_leaf_nil_clean]. }
  assert (∀ s : leaves,
    merge_items [] merge_leaf (clean_leaf <$> s) ∅ = clean_leaf <$> s) as H1'.
  { intros s. rewrite <- (fmap_empty clean_leaf), <- H1.
    by rewrite append_items_empty_l. }
  assert (∀ s1 s2 : symptoms,
    (λ subs : leaves, clean_leaf <$> subs) <$>
      append_items (append_items (λ l1 l2, (l1 ++ l2)%list)) s1 s2
    = merge_items ∅ (λ acc new, merge_items [] merge_leaf new acc)
        ((λ subs : leaves, clean_leaf <$> subs) <$> s2)
        ((λ subs : leaves, clean_leaf <$> subs) <$> s1)) as H2.
  { intros. apply clean_append_items; [apply H1|apply H1']. }
  apply clean_append_items; [apply H2|].
  intros s. rewrite <- (fmap_empty (λ subs : leaves, clean_leaf <$> subs)).
  rewrite <- H2. by rewrite append_items_empty_l.
Qed.

(** A page can be cut in front of a body-part header: parsing the two parts
    separately and merging them gives what parsing the whole page gives. *)
Theorem parse_lines_by_section l1 hdr pg rest body_parts :
  hdr ∈ body_parts → is_page_number (lower pg) = true →
  is_page_number (lower hdr) = false →
  parse_lines (l1 ++ hdr :: pg :: rest) body_parts
  = merge_data (parse_lines l1 body_parts)
               (parse_lines (hdr :: pg :: rest) body_parts).
Proof.
  intros Hhdr Hpg Hnot. unfold parse_lines.
  rewrite <- clean_duplicates_append. f_equal.
  rewrite (parse_loop_app body_parts _ (List.length l1)) by done.
  destruct (parse_loop body_parts l1 (PState ∅ None None))
    as [d1 bp1 sy1] eqn:E1.
  simpl. rewrite bool_decide_true, Hpg by done. simpl.
  pose proof (parse_loop_append body_parts d1 (List.length rest) rest ∅
                (Some hdr) None (le_n _)) as H.
  assert (append_data d1 ∅ = d1) as Hd1 by apply append_items_empty_r.
  rewrite Hd1 in H. by rewrite H.
Qed.

Lemma parse_lines_by_section_witness :
  parse_lines (["HEAD"; "p. 1"; "PAIN  Bell."] ++
               "EYE" :: "p. 2" :: ["PAIN  Acon."])
              {["HEAD"; "EYE"]}
  = merge_data (parse_lines ["HEAD"; "p. 1"; "PAIN  Bell."] {["HEAD"; "EYE"]})
               (parse_lines ("EYE" :: "p. 2" :: ["PAIN  Acon."])
                            {["HEAD"; "EYE"]}).
Proof.
  apply (parse_lines_by_section ["HEAD"; "p. 1"; "PAIN  Bell."]
                                "EYE" "p. 2" ["PAIN  Acon."]).
  - apply elem_of_union_r, elem_of_singleton. reflexivity.
  - reflexivity.
  - reflexivity.
Defined.

End Sections.

Section ScoreCountInstance.

Import Py Processor.

(** An instance of the score count: one queried pair, one remedy. *)
Lemma score_counts_matching_pairs_witness :
  1%nat = size (matching_pairs
                  (Processor {["HEAD" := {["pain" := ["Bell"]]}]} ∅ ∅)
                  ["HEAD"] ["pain"] "Bell").
Proof.
  apply (score_counts_matching_pairs
           (Processor {["HEAD" := {["pain" := ["Bell"]]}]} ∅ ∅)).
  - intros bp syms sy leaf H1 H2. simpl in H1.
    apply lookup_singleton_Some in H1 as [_ <-].
    apply lookup_singleton_Some in H2 as [_ <-].
    apply NoDup_singleton.
  - apply NoDup_singleton.
  - apply NoDup_singleton.
  - vm_compute. reflexivity.
Defined.

End ScoreCountInstance.
